(** * dm-to-date: event extraction and calendar commit

    A shallow embedding of the edge functions that carry the logic of
    the repository:

    - [process-ocr]: [parseEventFromText], [createDraftEvent],
      [sendQuickReplies] and the request handler around them;
    - [create-calendar-event]: [buildGoogleEvent] and the request handler
      that selects a draft, obtains a token, submits the event and records
      the outcome;
    - [instagram-webhook]: [normalizeMessage], [handleQuickReply] and the
      routing of a saved message.

    JavaScript strings are modelled as [string] (code units below 256),
    numbers that are confidences as binary64 floats ([PrimFloat]), time
    values of [Date] objects as [option Z] (milliseconds since the epoch,
    [None] for NaN), thrown exceptions as an explicit completion type. *)

From Stdlib Require Import ZArith List String Ascii Bool Lia Floats Sorted
  DecimalString.
Import ListNotations.

Set Warnings "-inexact-float".

Local Open Scope Z_scope.

(* ================================================================== *)
(** * Strings *)

Module JSString.

Definition chars := list ascii.

Definition code (c : ascii) : N := N_of_ascii c.

(** White space and line terminators that [String.prototype.trim] strips
    and that the regular expression class [\s] matches, among the code
    units below 256: TAB, LF, VT, FF, CR, SP and NBSP. *)
Definition is_space (c : ascii) : bool :=
  let n := code c in
  ((9 <=? n) && (n <=? 13) || (n =? 32) || (n =? 160))%N.

Definition is_digit (c : ascii) : bool :=
  let n := code c in ((48 <=? n) && (n <=? 57))%N.

Definition is_upper (c : ascii) : bool :=
  let n := code c in ((65 <=? n) && (n <=? 90))%N.

(** [toLowerCase] on one code unit: A-Z, and the Latin-1 capitals
    U+00C0..U+00DE except the multiplication sign U+00D7. *)
Definition lower (c : ascii) : ascii :=
  let n := code c in
  if ((65 <=? n) && (n <=? 90) ||
      (192 <=? n) && (n <=? 222) && negb (n =? 215))%N
  then ascii_of_N (n + 32) else c.

Definition toLowerCase (s : chars) : chars := map lower s.

Fixpoint drop_spaces (s : chars) : chars :=
  match s with
  | c :: s' => if is_space c then drop_spaces s' else s
  | [] => []
  end.

Definition trim (s : chars) : chars :=
  rev (drop_spaces (rev (drop_spaces s))).

Fixpoint starts_with (p s : chars) : bool :=
  match p, s with
  | [], _ => true
  | a :: p', b :: s' => Ascii.eqb a b && starts_with p' s'
  | _ :: _, [] => false
  end.

(** [s.includes(p)] *)
Fixpoint includes (p s : chars) : bool :=
  starts_with p s ||
  match s with
  | [] => false
  | _ :: s' => includes p s'
  end.

(** [s.split('\n')]: always at least one piece. *)
Fixpoint split_lines_aux (cur : chars) (s : chars) : list chars :=
  match s with
  | [] => [rev cur]
  | c :: s' =>
      if (code c =? 10)%N then rev cur :: split_lines_aux [] s'
      else split_lines_aux (c :: cur) s'
  end.

Definition split_lines (s : chars) : list chars := split_lines_aux [] s.

Definition of_string : string -> chars := list_ascii_of_string.
Definition to_string : chars -> string := string_of_list_ascii.

(** A string is falsy in a condition exactly when it is empty. *)
Definition truthy (s : string) : bool :=
  match s with EmptyString => false | _ => true end.

(** [xs.join('\n')] *)
Fixpoint join_lines (xs : list chars) : chars :=
  match xs with
  | [] => []
  | [x] => x
  | x :: rest => x ++ ascii_of_N 10 :: join_lines rest
  end.

End JSString.

(* ================================================================== *)
(** * Regular expressions

    The fragment of ECMAScript regular expressions the extractor uses:
    single code-unit tests, concatenation, ordered alternation, greedy
    repetition and capture groups, with the backtracking priority of
    [RegExp.prototype.exec]. *)

Module Regex.
Import JSString.

Inductive regex : Type :=
| Eps
| Chr (p : ascii -> bool)
| Seq (r1 r2 : regex)
| Alt (r1 r2 : regex)
| Star (r : regex)
| Cap (i : nat) (r : regex).

Definition caps := list (nat * chars).

Fixpoint cap_get (i : nat) (c : caps) : option chars :=
  match c with
  | [] => None
  | (j, v) :: c' => if Nat.eqb i j then Some v else cap_get i c'
  end.

Section Matcher.
Context {R : Type}.

(** Continuation-passing backtracking matcher.  [Star] is greedy and
    refuses an iteration that consumes nothing, as the standard does. *)
Fixpoint m (r : regex) (s : chars) (c : caps)
         (k : chars -> caps -> option R) {struct r} : option R :=
  match r with
  | Eps => k s c
  | Chr p =>
      match s with
      | a :: s' => if p a then k s' c else None
      | [] => None
      end
  | Seq r1 r2 => m r1 s c (fun s1 c1 => m r2 s1 c1 k)
  | Alt r1 r2 =>
      match m r1 s c k with
      | Some x => Some x
      | None => m r2 s c k
      end
  | Star r1 =>
      (fix star (fuel : nat) (s0 : chars) (c0 : caps) {struct fuel}
         : option R :=
         match fuel with
         | O => k s0 c0
         | S fuel' =>
             match m r1 s0 c0
                     (fun s1 c1 =>
                        if (List.length s1 <? List.length s0)%nat
                        then star fuel' s1 c1 else None) with
             | Some x => Some x
             | None => k s0 c0
             end
         end) (List.length s) s c
  | Cap i r1 =>
      m r1 s c
        (fun s1 c1 =>
           k s1 ((i, firstn (List.length s - List.length s1) s) :: c1))
  end.
End Matcher.

(** The result of a successful [exec]: the whole match and the groups. *)
Record match_result := { whole : chars; groups : caps }.

Definition match_here (r : regex) (s : chars) : option match_result :=
  m r s []
    (fun s1 c1 =>
       Some {| whole := firstn (List.length s - List.length s1) s; groups := c1 |}).

(** [s.match(r)] for a regular expression without the [g] flag: the
    leftmost position at which the pattern matches. *)
Fixpoint exec (r : regex) (s : chars) : option match_result :=
  match match_here r s with
  | Some x => Some x
  | None =>
      match s with
      | [] => None
      | _ :: s' => exec r s'
      end
  end.

(** ** Pattern combinators *)

Definition lit (c : ascii) : regex := Chr (Ascii.eqb c).

(** A literal letter under the [i] flag. *)
Definition lit_ci (c : ascii) : regex :=
  Chr (fun a => Ascii.eqb (lower a) (lower c)).

Fixpoint seq_of (f : ascii -> regex) (s : string) : regex :=
  match s with
  | EmptyString => Eps
  | String c EmptyString => f c
  | String c s' => Seq (f c) (seq_of f s')
  end.

Definition word_ci (s : string) : regex := seq_of lit_ci s.

Fixpoint alts (rs : list regex) : regex :=
  match rs with
  | [] => Chr (fun _ => false)
  | [r] => r
  | r :: rs' => Alt r (alts rs')
  end.

Definition words_ci (ws : list string) : regex := alts (map word_ci ws).

Definition plus (r : regex) : regex := Seq r (Star r).
Definition opt (r : regex) : regex := Alt r Eps.

Definition digit : regex := Chr is_digit.
Definition space : regex := Chr is_space.

(** [[^,\n]] *)
Definition not_comma_nl : regex :=
  Chr (fun a => negb ((code a =? 44)%N || (code a =? 10)%N)).

(** [[,\s]] *)
Definition comma_or_space : regex :=
  Chr (fun a => (code a =? 44)%N || is_space a).

(** [\d{1,2}] and [\d{4}] *)
Definition digits_1_2 : regex := Seq digit (opt digit).
Definition digits_4 : regex := Seq digit (Seq digit (Seq digit digit)).

End Regex.

(* ================================================================== *)
(** * Dates

    Time values are integers of milliseconds since 1970-01-01T00:00:00Z;
    [None] stands for NaN (an invalid [Date]).  The day and year arithmetic
    follows the definitions of the language standard. *)

Module JSDate.
Import JSString.

Definition msPerDay : Z := 86400000.
Definition maxTime : Z := 8640000000000000.
Definition twoHours : Z := 2 * 60 * 60 * 1000.

(** [TimeClip] *)
Definition TimeClip (v : option Z) : option Z :=
  match v with
  | Some t => if (- maxTime <=? t) && (t <=? maxTime) then Some t else None
  | None => None
  end.

Definition DayFromYear (y : Z) : Z :=
  365 * (y - 1970) + (y - 1969) / 4 - (y - 1901) / 100 + (y - 1601) / 400.

Definition InLeapYear (y : Z) : bool :=
  (y mod 4 =? 0) && (negb (y mod 100 =? 0) || (y mod 400 =? 0)).

(** The year that contains day number [d]: the largest [y] with
    [DayFromYear y <= d]. *)
Definition YearFromDay (d : Z) : Z :=
  let y0 := 1970 + (d * 400) / 146097 in
  if d <? DayFromYear y0 then y0 - 1
  else if DayFromYear (y0 + 1) <=? d then y0 + 1
  else y0.

(** Days of the year before month [m] (1 = January). *)
Definition DaysBeforeMonth (leap : bool) (m : Z) : Z :=
  let l := if leap then 1 else 0 in
  match m with
  | 1 => 0
  | 2 => 31
  | 3 => 59 + l
  | 4 => 90 + l
  | 5 => 120 + l
  | 6 => 151 + l
  | 7 => 181 + l
  | 8 => 212 + l
  | 9 => 243 + l
  | 10 => 273 + l
  | 11 => 304 + l
  | 12 => 334 + l
  | _ => 365 + l
  end.

Definition DaysInMonth (leap : bool) (m : Z) : Z :=
  DaysBeforeMonth leap (m + 1) - DaysBeforeMonth leap m.

(** The month (1..12) of the day [diy] within a year. *)
Definition MonthFromDayInYear (leap : bool) (diy : Z) : Z :=
  let before := DaysBeforeMonth leap in
  if diy <? before 2 then 1 else if diy <? before 3 then 2
  else if diy <? before 4 then 3 else if diy <? before 5 then 4
  else if diy <? before 6 then 5 else if diy <? before 7 then 6
  else if diy <? before 8 then 7 else if diy <? before 9 then 8
  else if diy <? before 10 then 9 else if diy <? before 11 then 10
  else if diy <? before 12 then 11 else 12.

(** [MakeDay] and [MakeDate] for a calendar date with month in 1..12. *)
Definition MakeDay (y m d : Z) : Z :=
  DayFromYear y + DaysBeforeMonth (InLeapYear y) m + d - 1.

Definition MakeTime (h mi s ms : Z) : Z :=
  ((h * 60 + mi) * 60 + s) * 1000 + ms.

Definition MakeDate (day time : Z) : Z := day * msPerDay + time.

(** ** Decimal fields of fixed width *)

Definition digit_char (n : Z) : ascii := ascii_of_N (48 + Z.to_N n).
Definition digit_val (c : ascii) : Z := Z.of_N (code c) - 48.

Fixpoint pad (w : nat) (n : Z) : chars :=
  match w with
  | O => []
  | S w' => pad w' (n / 10) ++ [digit_char (n mod 10)]
  end.

Fixpoint take_digits (w : nat) (acc : Z) (s : chars) : option (Z * chars) :=
  match w with
  | O => Some (acc, s)
  | S w' =>
      match s with
      | c :: s' =>
          if is_digit c then take_digits w' (10 * acc + digit_val c) s'
          else None
      | [] => None
      end
  end.

Definition ch (s : string) : ascii :=
  match s with String c _ => c | EmptyString => Ascii.zero end.

(** ** [Date.prototype.toISOString] on a valid time value *)

Definition year_field (y : Z) : chars :=
  if (0 <=? y) && (y <=? 9999) then pad 4 y
  else (if y <? 0 then ch "-" else ch "+") :: pad 6 (Z.abs y).

Definition iso_of_time (t : Z) : chars :=
  let day := t / msPerDay in
  let tod := t mod msPerDay in
  let y := YearFromDay day in
  let leap := InLeapYear y in
  let diy := day - DayFromYear y in
  let mo := MonthFromDayInYear leap diy in
  let d := diy - DaysBeforeMonth leap mo + 1 in
  year_field y ++ ch "-" :: pad 2 mo ++ ch "-" :: pad 2 d ++
  ch "T" :: pad 2 (tod / 3600000) ++ ch ":" :: pad 2 (tod / 60000 mod 60) ++
  ch ":" :: pad 2 (tod / 1000 mod 60) ++ ch "." :: pad 3 (tod mod 1000) ++
  [ch "Z"].

(** ** The date-time string format

    [iso_parse] recognises the strings whose time value the standard
    fixes: a calendar date [YYYY], [YYYY-MM] or [YYYY-MM-DD] (also with an
    expanded year), read as UTC, optionally followed by
    [THH:mm], [THH:mm:ss] or [THH:mm:ss.sss] and an explicit offset [Z] or
    [+HH:mm] / [-HH:mm].  Every field must be in range and the day must
    exist in its month.  Anything else is left to the engine. *)

Definition bind {A B} (o : option A) (f : A -> option B) : option B :=
  match o with Some a => f a | None => None end.

Notation "' p <- e ;; k" := (bind e (fun p => k))
  (at level 61, p pattern, e at next level, right associativity).

Definition guard (b : bool) : option unit := if b then Some tt else None.

Definition parse_year (s : chars) : option (Z * chars) :=
  match s with
  | c :: s' =>
      if Ascii.eqb c (ch "+") then take_digits 6 0 s'
      else if Ascii.eqb c (ch "-") then
        ' (y, r) <- take_digits 6 0 s' ;;
        ' _ <- guard (negb (y =? 0)) ;;
        Some (- y, r)
      else take_digits 4 0 s
  | [] => None
  end.

Definition expect (c : string) (s : chars) : option chars :=
  match s with
  | a :: s' => if Ascii.eqb a (ch c) then Some s' else None
  | [] => None
  end.

(** [-MM] and [-DD], both optional, defaulting to 1. *)
Definition parse_month_day (s : chars) : option (Z * Z * chars) :=
  match expect "-" s with
  | None => Some (1, 1, s)
  | Some s1 =>
      ' (mo, s2) <- take_digits 2 0 s1 ;;
      match expect "-" s2 with
      | None => Some (mo, 1, s2)
      | Some s3 =>
          ' (d, s4) <- take_digits 2 0 s3 ;;
          Some (mo, d, s4)
      end
  end.

(** [:ss] and [.sss], both optional, defaulting to 0. *)
Definition parse_seconds (s : chars) : option (Z * Z * chars) :=
  match expect ":" s with
  | None => Some (0, 0, s)
  | Some s1 =>
      ' (sec, s2) <- take_digits 2 0 s1 ;;
      match expect "." s2 with
      | None => Some (sec, 0, s2)
      | Some s3 =>
          ' (ms, s4) <- take_digits 3 0 s3 ;;
          Some (sec, ms, s4)
      end
  end.

(** The offset, in milliseconds east of UTC; it must end the string. *)
Definition parse_offset (s : chars) : option Z :=
  match s with
  | [c] => if Ascii.eqb c (ch "Z") then Some 0 else None
  | c :: s1 =>
      ' sign <- (if Ascii.eqb c (ch "+") then Some 1
                 else if Ascii.eqb c (ch "-") then Some (-1) else None) ;;
      ' (h, s2) <- take_digits 2 0 s1 ;;
      ' s3 <- expect ":" s2 ;;
      ' (mi, s4) <- take_digits 2 0 s3 ;;
      ' _ <- guard ((h <=? 23) && (mi <=? 59)) ;;
      match s4 with
      | [] => Some (sign * (h * 60 + mi) * 60000)
      | _ => None
      end
  | [] => None
  end.

Definition parse_time (s : chars) : option Z :=
  match s with
  | [] => Some 0
  | _ =>
      ' s1 <- expect "T" s ;;
      ' (h, s2) <- take_digits 2 0 s1 ;;
      ' s3 <- expect ":" s2 ;;
      ' (mi, s4) <- take_digits 2 0 s3 ;;
      ' (sec, ms, s5) <- parse_seconds s4 ;;
      ' off <- parse_offset s5 ;;
      ' _ <- guard ((h <=? 23) && (mi <=? 59) && (sec <=? 59)) ;;
      Some (MakeTime h mi sec ms - off)
  end.

Definition iso_parse (s : chars) : option Z :=
  ' (y, s1) <- parse_year s ;;
  ' (mo, d, s2) <- parse_month_day s1 ;;
  ' _ <- guard ((1 <=? mo) && (mo <=? 12) && (1 <=? d) &&
                (d <=? DaysInMonth (InLeapYear y) mo)) ;;
  ' time <- parse_time s2 ;;
  TimeClip (Some (MakeDate (MakeDay y mo d) time)).

(** ** [Date] objects *)

Section Engine.
(** What the engine's own heuristics make of a string that is not in the
    standard format; the standard leaves it to the implementation. *)
Variable legacy : string -> option Z.

(** [Date.parse] *)
Definition Date_parse (s : string) : option Z :=
  match iso_parse (of_string s) with
  | Some t => Some t
  | None => legacy s
  end.

(** [new Date(s)] for a string [s]: never throws. *)
Definition Date_of_string (s : string) : option Z :=
  TimeClip (Date_parse s).
End Engine.

(** [new Date(v)] for a number [v]. *)
Definition Date_of_number (v : option Z) : option Z := TimeClip v.

(** [d.getTime() + n] in number arithmetic: NaN is absorbing. *)
Definition time_plus (v : option Z) (n : Z) : option Z :=
  match v with Some t => Some (t + n) | None => None end.

End JSDate.

(* ================================================================== *)
(** * Exceptions and local state

    A function body is a computation over its local variables that either
    completes normally or throws; [try_catch] is the [try { } catch { }]
    statement. *)

Module Comp.

Inductive exn : Type :=
| Error (msg : string)
| RangeError (msg : string)
| TypeError (msg : string).

Inductive completion (A : Type) : Type :=
| Normal (a : A)
| Throw (e : exn).
Arguments Normal {A} a.
Arguments Throw {A} e.

Definition comp (S A : Type) : Type := S -> completion A * S.

Section Ops.
Context {S : Type}.

Definition ret {A} (a : A) : comp S A := fun s => (Normal a, s).

Definition bind {A B} (c : comp S A) (f : A -> comp S B) : comp S B :=
  fun s =>
    match c s with
    | (Normal a, s') => f a s'
    | (Throw e, s') => (Throw e, s')
    end.

Definition get : comp S S := fun s => (Normal s, s).
Definition modify (f : S -> S) : comp S unit := fun s => (Normal tt, f s).
Definition throw {A} (e : exn) : comp S A := fun s => (Throw e, s).

Definition lift {A} (r : completion A) : comp S A := fun s => (r, s).

Definition try_catch (body : comp S unit) (handler : comp S unit)
  : comp S unit :=
  fun s =>
    match body s with
    | (Normal a, s') => (Normal a, s')
    | (Throw _, s') => handler s'
    end.

(** [for (const x of xs) body] without [break]. *)
Fixpoint for_each {A} (xs : list A) (body : A -> comp S unit)
  : comp S unit :=
  match xs with
  | [] => ret tt
  | x :: xs' => bind (body x) (fun _ => for_each xs' body)
  end.

Definition when (b : bool) (c : comp S unit) : comp S unit :=
  if b then c else ret tt.
End Ops.

Notation "x <- c1 ;; c2" := (bind c1 (fun x => c2))
  (at level 61, c1 at next level, right associativity).
Notation "c1 ;; c2" := (bind c1 (fun _ => c2))
  (at level 61, right associativity).

End Comp.

(* ================================================================== *)
(** * The text extractor: [parseEventFromText] *)

Module Extractor.
Import JSString JSDate Regex Comp.

Record EventData := {
  title : option string;
  start_dt : option string;
  end_dt : option string;
  location : option string;
  notes : option string;
  confidence : float
}.

(** The local variables of [parseEventFromText]. *)
Record vars := {
  v_title : chars;
  v_start_dt : chars;
  v_end_dt : chars;
  v_location : chars;
  v_notes : chars;
  v_confidence : float;
  v_dateFound : bool;
  v_timeFound : bool
}.

Definition init : vars :=
  {| v_title := []; v_start_dt := []; v_end_dt := []; v_location := [];
     v_notes := []; v_confidence := 0.5%float;
     v_dateFound := false; v_timeFound := false |}.

Definition set_title (x : chars) (v : vars) : vars :=
  {| v_title := x; v_start_dt := v_start_dt v; v_end_dt := v_end_dt v;
     v_location := v_location v; v_notes := v_notes v;
     v_confidence := v_confidence v;
     v_dateFound := v_dateFound v; v_timeFound := v_timeFound v |}.

Definition set_start_dt (x : chars) (v : vars) : vars :=
  {| v_title := v_title v; v_start_dt := x; v_end_dt := v_end_dt v;
     v_location := v_location v; v_notes := v_notes v;
     v_confidence := v_confidence v;
     v_dateFound := v_dateFound v; v_timeFound := v_timeFound v |}.

Definition set_end_dt (x : chars) (v : vars) : vars :=
  {| v_title := v_title v; v_start_dt := v_start_dt v; v_end_dt := x;
     v_location := v_location v; v_notes := v_notes v;
     v_confidence := v_confidence v;
     v_dateFound := v_dateFound v; v_timeFound := v_timeFound v |}.

Definition set_location (x : chars) (v : vars) : vars :=
  {| v_title := v_title v; v_start_dt := v_start_dt v;
     v_end_dt := v_end_dt v; v_location := x; v_notes := v_notes v;
     v_confidence := v_confidence v;
     v_dateFound := v_dateFound v; v_timeFound := v_timeFound v |}.

Definition set_notes (x : chars) (v : vars) : vars :=
  {| v_title := v_title v; v_start_dt := v_start_dt v;
     v_end_dt := v_end_dt v; v_location := v_location v; v_notes := x;
     v_confidence := v_confidence v;
     v_dateFound := v_dateFound v; v_timeFound := v_timeFound v |}.

Definition set_confidence (x : float) (v : vars) : vars :=
  {| v_title := v_title v; v_start_dt := v_start_dt v;
     v_end_dt := v_end_dt v; v_location := v_location v;
     v_notes := v_notes v; v_confidence := x;
     v_dateFound := v_dateFound v; v_timeFound := v_timeFound v |}.

Definition set_dateFound (x : bool) (v : vars) : vars :=
  {| v_title := v_title v; v_start_dt := v_start_dt v;
     v_end_dt := v_end_dt v; v_location := v_location v;
     v_notes := v_notes v; v_confidence := v_confidence v;
     v_dateFound := x; v_timeFound := v_timeFound v |}.

Definition set_timeFound (x : bool) (v : vars) : vars :=
  {| v_title := v_title v; v_start_dt := v_start_dt v;
     v_end_dt := v_end_dt v; v_location := v_location v;
     v_notes := v_notes v; v_confidence := v_confidence v;
     v_dateFound := v_dateFound v; v_timeFound := x |}.

(** [confidence += d] *)
Definition add_confidence (d : float) : comp vars unit :=
  modify (fun v => set_confidence (v_confidence v + d)%float v).

Definition nonempty (s : chars) : bool :=
  match s with [] => false | _ => true end.

(** [Math.min(x, y)] *)
Definition Math_min (x y : float) : float :=
  if PrimFloat.is_nan x || PrimFloat.is_nan y then PrimFloat.nan
  else if (x <? y)%float then x
  else if (y <? x)%float then y
  else match PrimFloat.classify x with
       | FloatClass.NZero => x
       | _ => y
       end.

(** [d.toISOString()]: a [RangeError] on an invalid date. *)
Definition toISOString (d : option Z) : completion chars :=
  match d with
  | Some t => Normal (iso_of_time t)
  | None => Throw (RangeError "Invalid time value")
  end.

(** ** The patterns *)

Definition weekdays : list string :=
  ["monday"; "tuesday"; "wednesday"; "thursday"; "friday"; "saturday";
   "sunday"]%string.

Definition months : list string :=
  ["january"; "february"; "march"; "april"; "may"; "june"; "july";
   "august"; "september"; "october"; "november"; "december"]%string.

(** [:\s*([^,\n]+)] after a label *)
Definition labelled (labels : list string) : regex :=
  Seq (words_ci labels)
    (Seq (lit ":") (Seq (Star space) (Cap 1 (plus not_comma_nl)))).

(** [(\d{1,2}:\d{2}\s*(?:am|pm))] with the [i] flag *)
Definition timeRegex : regex :=
  Cap 1 (Seq digits_1_2
          (Seq (lit ":")
            (Seq digit (Seq digit
              (Seq (Star space) (words_ci ["am"; "pm"]%string)))))).

Definition dateTimeRegexes : list regex :=
  [ labelled ["date"; "when"]%string;
    labelled ["time"]%string;
    Seq (Cap 1 (words_ci weekdays))
      (Seq (plus comma_or_space) (Cap 2 (plus not_comma_nl)));
    Cap 1 (Seq digits_1_2
            (Seq (lit "/") (Seq digits_1_2 (Seq (lit "/") digits_4))));
    timeRegex;
    Seq (Cap 1 (words_ci months))
      (Seq (plus space)
        (Seq digits_1_2
          (Seq (opt (words_ci ["st"; "nd"; "rd"; "th"]%string))
            (Seq (opt (lit ","))
              (Seq (plus space) digits_4))))) ].

Definition venue_words : list string :=
  ["room"; "center"; "building"; "hall"; "auditorium"]%string.

Definition locationRegexes : list regex :=
  [ labelled ["location"; "where"; "room"; "address"]%string;
    Seq (alts [word_ci "at"; lit "@"])
      (Seq (plus space)
        (Cap 1 (Seq (plus not_comma_nl)
                 (Seq (words_ci venue_words) (Star not_comma_nl)))));
    Cap 1 (Seq (word_ci "room")
            (Seq (plus space) (Seq (plus digit) (Star not_comma_nl))));
    Cap 1 (Seq (Star not_comma_nl)
            (Seq (words_ci
                    ["center"; "building"; "hall"; "auditorium";
                     "library"]%string)
               (Star not_comma_nl))) ].

(** [match[1] || match[0]] *)
Definition matched_text (mt : match_result) : chars :=
  match cap_get 1 (groups mt) with
  | Some (c :: g) => c :: g
  | _ => whole mt
  end.

Section WithEngine.
Variable legacy : string -> option Z.

Definition new_Date (s : chars) : completion (option Z) :=
  Normal (Date_of_string legacy (to_string s)).

(** ** Title *)
Definition is_title_candidate (line : chars) : bool :=
  (5 <? List.length line)%nat &&
  negb (includes (of_string "date") (toLowerCase line)) &&
  negb (includes (of_string "time") (toLowerCase line)) &&
  negb (includes (of_string "location") (toLowerCase line)).

Definition extract_title (lines : list chars) : comp vars unit :=
  match filter is_title_candidate (firstn 3 lines) with
  | t :: _ => modify (set_title t) ;; add_confidence 0.2
  | [] => ret tt
  end.

(** ** Date and time *)

(** The [try] block of the inner loop over [dateTimeRegexes]. *)
Definition date_try (matchedText : chars) : comp vars unit :=
  parsedDate <- lift (new_Date matchedText) ;;
  match parsedDate with
  | Some _ =>
      iso <- lift (toISOString parsedDate) ;;
      modify (set_start_dt iso) ;;
      modify (set_dateFound true) ;;
      add_confidence 0.3
  | None => ret tt
  end.

(** Its [catch] block. *)
Definition date_catch (matchedText : chars) : comp vars unit :=
  v <- get ;;
  when (negb (nonempty (v_start_dt v)))
    (modify (set_start_dt matchedText) ;;
     modify (set_dateFound true) ;;
     add_confidence 0.1).

(** The body of the inner loop. *)
Definition date_step (line : chars) (regex : regex) : comp vars unit :=
  match exec regex line with
  | Some mt =>
      let matchedText := matched_text mt in
      try_catch (date_try matchedText) (date_catch matchedText)
  | None => ret tt
  end.

(** The separate time-of-day scan at the end of the outer loop body. *)
Definition time_step (line : chars) : comp vars unit :=
  v <- get ;;
  match exec timeRegex line with
  | Some timeMatch =>
      when (negb (v_timeFound v))
        (modify (set_timeFound true) ;;
         add_confidence 0.2 ;;
         v1 <- get ;;
         when (nonempty (v_start_dt v1) &&
               negb (includes (of_string "T") (v_start_dt v1)))
           (try_catch
              (timeStr <- match cap_get 1 (groups timeMatch) with
                          | Some g => ret g
                          | None => ret (of_string "undefined")
                          end ;;
               combinedDateTime <-
                 lift (new_Date (v_start_dt v1 ++ of_string " " ++ timeStr)) ;;
               match combinedDateTime with
               | Some _ =>
                   iso <- lift (toISOString combinedDateTime) ;;
                   modify (set_start_dt iso)
               | None => ret tt
               end)
              (ret tt)))
  | None => ret tt
  end.

Definition scan_dates (lines : list chars) : comp vars unit :=
  for_each lines
    (fun line =>
       for_each dateTimeRegexes (date_step line) ;;
       time_step line).

(** ** Location *)

(** The inner loop over [locationRegexes], which [break]s on a hit. *)
Fixpoint location_loop (rs : list regex) (line : chars)
  : comp vars unit :=
  match rs with
  | [] => ret tt
  | regex :: rs' =>
      v <- get ;;
      match exec regex line with
      | Some mt =>
          if negb (nonempty (v_location v)) then
            match cap_get 1 (groups mt) with
            | Some g =>
                modify (set_location (trim g)) ;;
                add_confidence 0.2
            | None => throw (TypeError "undefined has no trim")
            end
          else location_loop rs' line
      | None => location_loop rs' line
      end
  end.

Definition extract_location (lines : list chars) : comp vars unit :=
  for_each lines (location_loop locationRegexes).

(** ** Notes *)
Definition is_note_line (line : chars) : bool :=
  includes (of_string "@") line || includes (of_string "http") line ||
  includes (of_string "contact") line.

Definition extract_notes (lines : list chars) : comp vars unit :=
  let noteLines := filter is_note_line lines in
  when (0 <? List.length noteLines)%nat
    (modify (set_notes (join_lines noteLines)) ;; add_confidence 0.1).

(** ** Default end, two hours after the start *)
Definition default_end : comp vars unit :=
  v <- get ;;
  when (nonempty (v_start_dt v) &&
        includes (of_string "T") (v_start_dt v))
    (try_catch
       (startDate <- lift (new_Date (v_start_dt v)) ;;
        let endDate := Date_of_number (time_plus startDate twoHours) in
        iso <- lift (toISOString endDate) ;;
        modify (set_end_dt iso))
       (ret tt)).

Definition clamp : comp vars unit :=
  modify (fun v => set_confidence (Math_min (v_confidence v) 1.0) v).

(** [x || undefined] *)
Definition or_undefined (s : chars) : option string :=
  if nonempty s then Some (to_string s) else None.

Definition lines_of (text : string) : list chars :=
  filter (fun line => (0 <? List.length line)%nat)
         (map trim (split_lines (of_string text))).

Definition body (text : string) : comp vars unit :=
  let lines := lines_of text in
  extract_title lines ;;
  scan_dates lines ;;
  extract_location lines ;;
  extract_notes lines ;;
  default_end ;;
  clamp.

Definition parseEventFromText (text : string) : completion EventData :=
  match body text init with
  | (Normal _, v) =>
      Normal {| title := or_undefined (v_title v);
                start_dt := or_undefined (v_start_dt v);
                end_dt := or_undefined (v_end_dt v);
                location := or_undefined (v_location v);
                notes := or_undefined (v_notes v);
                confidence := v_confidence v |}
  | (Throw e, _) => Throw e
  end.

End WithEngine.

End Extractor.

(* ================================================================== *)
(** * The record store and the outside world *)

Module Store.
Import JSString Comp.

(** A row of [draft_events]; [None] is SQL [NULL]. *)
Record draft_event := {
  id : string;
  user_id : string;
  source_message_id : string;
  title : option string;
  start_dt : option string;
  end_dt : option string;
  location : option string;
  notes : option string;
  confidence : float;
  needs_confirmation : bool;
  ocr_text : string;
  created_at : Z
}.

Record time_zone_stamp := { dateTime : option string; timeZone : string }.

Record GoogleCalendarEvent := {
  summary : string;
  description : string;
  start : time_zone_stamp;
  end_ : time_zone_stamp;
  g_location : option string;
  reminders_useDefault : bool
}.

(** What the calendar provider answers on success. *)
Record calendar_response := { cr_id : string; htmlLink : string }.

(** A row of [events]. *)
Record event_row := {
  e_user_id : string;
  draft_event_id : string;
  google_event_id : string;
  calendar_id : string;
  request_payload : GoogleCalendarEvent;
  response_payload : calendar_response
}.

Record store := {
  draft_events : list draft_event;
  events : list event_row;
  processed_messages : list string
}.

(** Everything a handler does that leaves the process, in order. *)
Inductive effect : Type :=
| OcrFetch (mediaUrl : string)
| DraftQuery (userId : string) (draftEventId : option string)
| DraftInsert (row : draft_event) (ok : bool)
| MessageUpdate (messageId : string) (ok : bool)
| Invoke (function_name : string) (userId : string)
| UserLookup (userId : string)
| TokenProbe (token : string)
| TokenRefresh (userId : string)
| CalendarPost (token : string) (event : GoogleCalendarEvent)
| EventInsert (row : event_row) (ok : bool)
| DraftUpdate (draftId : string) (ok : bool).

Record world := { w_store : store; w_trace : list effect }.

(** The answers of the external collaborators during one request. *)
Record env := {
  ocr : completion string;
  draft_insert : completion (string * Z);
  message_update_ok : bool;
  draft_query_error : option string;
  user_row : option (option string * option string);
  probe_status : Z;
  refresh : completion string;
  calendar : completion calendar_response;
  event_insert_ok : bool;
  draft_update_ok : bool
}.

Definition emit (e : effect) : comp world unit :=
  modify (fun w => {| w_store := w_store w; w_trace := w_trace w ++ [e] |}).

Definition update_store (f : store -> store) : comp world unit :=
  modify (fun w => {| w_store := f (w_store w); w_trace := w_trace w |}).

(** [!x] for a nullable string. *)
Definition absent (o : option string) : bool :=
  match o with
  | Some s => negb (truthy s)
  | None => true
  end.

(** [x || d] for a nullable string. *)
Definition or_else (o : option string) (d : string) : string :=
  match o with
  | Some s => if truthy s then s else d
  | None => d
  end.

Definition contacts_credentials (e : effect) : bool :=
  match e with
  | UserLookup _ | TokenProbe _ | TokenRefresh _ => true
  | _ => false
  end.

Definition contacts_calendar (e : effect) : bool :=
  match e with
  | TokenProbe _ | CalendarPost _ _ => true
  | _ => false
  end.

End Store.

(* ================================================================== *)
(** * The calendar commit engine: [create-calendar-event] *)

Module Commit.
Import JSString JSDate Comp Store.
Local Open Scope string_scope.

Record request := { userId : string; draftEventId : option string }.

Record success_body := {
  eventId : string;
  eventLink : string;
  r_title : option string;
  startTime : option string
}.

Inductive response : Type :=
| Success (body : success_body)
| Failure (status : Z) (error : string).

Definition message (e : exn) : string :=
  match e with
  | Error m | RangeError m | TypeError m => m
  end.

Section WithWorld.
Variable legacy : string -> option Z.
Variable E : env.

(** ** [getValidAccessToken] *)
Definition getValidAccessToken (userId : string) : comp world string :=
  emit (UserLookup userId) ;;
  match user_row E with
  | Some (Some google_access_token, google_refresh_token) =>
      if truthy google_access_token then
        emit (TokenProbe google_access_token) ;;
        if ((probe_status E =? 401)%Z && negb (absent google_refresh_token))%bool
        then
          emit (TokenRefresh userId) ;;
          match refresh E with
          | Normal access_token => ret access_token
          | Throw _ =>
              throw (Error "Failed to refresh Google access token")
          end
        else if negb ((200 <=? probe_status E)%Z && (probe_status E <=? 299)%Z)
        then throw (Error "Invalid Google access token")
        else ret google_access_token
      else
        throw (Error "No Google access token found. Please connect your Google Calendar.")
  | _ =>
      throw (Error "No Google access token found. Please connect your Google Calendar.")
  end.

(** ** [createGoogleCalendarEvent] *)
Definition createGoogleCalendarEvent (accessToken : string)
           (event : GoogleCalendarEvent) : comp world calendar_response :=
  emit (CalendarPost accessToken event) ;;
  lift (calendar E).

(** ** [buildGoogleEvent] *)

(** [new Date(x)] for a nullable string: [null] converts to 0. *)
Definition new_Date_nullable (x : option string) : option Z :=
  match x with
  | Some s => Date_of_string legacy s
  | None => Date_of_number (Some 0)
  end.

Definition default_end_of (start_dt : option string) : completion string :=
  match Date_of_number (time_plus (new_Date_nullable start_dt) twoHours) with
  | Some t => Normal (to_string (iso_of_time t))
  | None => Throw (RangeError "Invalid time value")
  end.

Definition buildGoogleEvent (draftEvent : draft_event)
  : completion GoogleCalendarEvent :=
  match (if absent (Store.end_dt draftEvent)
         then default_end_of (Store.start_dt draftEvent)
         else Normal (or_else (Store.end_dt draftEvent) EmptyString)) with
  | Normal end_dateTime =>
      Normal
        {| summary := or_else (Store.title draftEvent) "Event from Instagram";
           description :=
             "Created from Instagram DM" ++
             String (ascii_of_N 10) (String (ascii_of_N 10)
               (or_else (Store.notes draftEvent) EmptyString));
           start := {| dateTime := Store.start_dt draftEvent;
                       timeZone := "UTC" |};
           end_ := {| dateTime := Some end_dateTime; timeZone := "UTC" |};
           g_location :=
             if absent (Store.location draftEvent) then None
             else Store.location draftEvent;
           reminders_useDefault := true |}
  | Throw e => Throw e
  end.

(** ** The draft query *)

Fixpoint insert_desc (d : draft_event) (l : list draft_event)
  : list draft_event :=
  match l with
  | [] => [d]
  | x :: l' =>
      if (created_at x <? created_at d)%Z then d :: l
      else x :: insert_desc d l'
  end.

(** [.order('created_at', { ascending: false })] *)
Definition order_desc (l : list draft_event) : list draft_event :=
  fold_right insert_desc [] l.

Definition draftQuery (userId : string) (draftEventId : option string)
           (rows : list draft_event) : list draft_event :=
  let q := filter (fun d => String.eqb (user_id d) userId) rows in
  if absent draftEventId then
    firstn 1
      (order_desc (filter (fun d => negb (needs_confirmation d)) q))
  else
    filter (fun d => String.eqb (id d) (or_else draftEventId EmptyString)) q.

(** [.maybeSingle()]: data and error. *)
Definition maybeSingle (rows : list draft_event)
  : option draft_event * option string :=
  match draft_query_error E with
  | Some msg => (None, Some msg)
  | None =>
      match rows with
      | [] => (None, None)
      | [d] => (Some d, None)
      | _ => (None,
              Some "JSON object requested, multiple (or no) rows returned")
      end
  end.

Definition mark_confirmed (draftId : string) (s : store) : store :=
  {| draft_events :=
       map (fun d =>
              if String.eqb (id d) draftId then
                {| id := id d; user_id := user_id d;
                   source_message_id := source_message_id d;
                   title := Store.title d; start_dt := Store.start_dt d;
                   end_dt := Store.end_dt d;
                   location := Store.location d; notes := Store.notes d;
                   confidence := Store.confidence d;
                   needs_confirmation := false;
                   ocr_text := ocr_text d; created_at := created_at d |}
              else d)
           (draft_events s);
     events := events s;
     processed_messages := processed_messages s |}.

Definition add_event (row : event_row) (s : store) : store :=
  {| draft_events := draft_events s;
     events := (events s ++ [row])%list;
     processed_messages := processed_messages s |}.

(** ** The request handler: the [try] block, then the [catch] *)

Definition main (req : request) : comp world response :=
  emit (DraftQuery (userId req) (draftEventId req)) ;;
  w <- get ;;
  let '(draftEvent, draftError) :=
    maybeSingle (draftQuery (userId req) (draftEventId req)
                            (draft_events (w_store w))) in
  match draftError with
  | Some msg => throw (Error ("Database error: " ++ msg))
  | None =>
  match draftEvent with
  | None => throw (Error "No draft event found")
  | Some draftEvent =>
      if absent (Store.start_dt draftEvent) then
        throw (Error "Event start time is required")
      else
        accessToken <- getValidAccessToken (userId req) ;;
        googleEvent <- lift (buildGoogleEvent draftEvent) ;;
        calendarResponse <- createGoogleCalendarEvent accessToken googleEvent ;;
        let row :=
          {| e_user_id := userId req;
             draft_event_id := id draftEvent;
             google_event_id := cr_id calendarResponse;
             calendar_id := "primary";
             request_payload := googleEvent;
             response_payload := calendarResponse |} in
        emit (EventInsert row (event_insert_ok E)) ;;
        when (event_insert_ok E) (update_store (add_event row)) ;;
        emit (DraftUpdate (id draftEvent) (draft_update_ok E)) ;;
        when (draft_update_ok E)
          (update_store (mark_confirmed (id draftEvent))) ;;
        ret (Success {| eventId := cr_id calendarResponse;
                        eventLink := htmlLink calendarResponse;
                        r_title := Store.title draftEvent;
                        startTime := Store.start_dt draftEvent |})
  end
  end.

Definition handler (req : request) : comp world response :=
  fun w =>
    match main req w with
    | (Normal r, w') => (Normal r, w')
    | (Throw error, w') => (Normal (Failure 500 (message error)), w')
    end.

End WithWorld.

End Commit.

(* ================================================================== *)
(** * The ingestion orchestrator: [process-ocr] *)

Module Ingest.
Import JSString JSDate Comp Store.
Local Open Scope string_scope.

Record request := { userId : string; messageId : string; mediaUrl : string }.

Inductive response : Type :=
| Success (draftId : string) (confidence : float)
| Failure (status : Z) (error : string).

(** The [needs_confirmation] expression of [createDraftEvent]. *)
Definition needs_confirmation_of (eventData : Extractor.EventData) : bool :=
  (Extractor.confidence eventData <? 0.8)%float ||
  absent (Extractor.start_dt eventData) ||
  absent (Extractor.title eventData).

(** The three branches of [sendQuickReplies]. *)
Inductive quick_reply : Type :=
| AskForDateTime
| ConfirmEvent
| AutoCreate.

Definition quick_reply_of (eventData : Extractor.EventData) : quick_reply :=
  if absent (Extractor.start_dt eventData) then AskForDateTime
  else if (Extractor.confidence eventData <? 0.8)%float then ConfirmEvent
  else AutoCreate.

Section WithWorld.
Variable legacy : string -> option Z.
Variable E : env.

(** The text comes from the OCR collaborator; the stand-in of the source
    downloads the image and answers with a fixed sample flyer. *)
Definition performOCR (imageUrl : string) : comp world string :=
  emit (OcrFetch imageUrl) ;;
  lift (ocr E).

Definition add_draft (row : draft_event) (s : store) : store :=
  {| draft_events := (draft_events s ++ [row])%list;
     events := events s;
     processed_messages := processed_messages s |}.

Definition createDraftEvent (userId messageId : string)
           (eventData : Extractor.EventData) (ocrText : string)
  : comp world string :=
  let row new_id now :=
    {| id := new_id; user_id := userId;
       source_message_id := messageId;
       title := Extractor.title eventData;
       start_dt := Extractor.start_dt eventData;
       end_dt := Extractor.end_dt eventData;
       location := Extractor.location eventData;
       notes := Extractor.notes eventData;
       Store.confidence := Extractor.confidence eventData;
       needs_confirmation := needs_confirmation_of eventData;
       ocr_text := ocrText;
       created_at := now |} in
  match draft_insert E with
  | Normal (new_id, now) =>
      emit (DraftInsert (row new_id now) true) ;;
      update_store (add_draft (row new_id now)) ;;
      ret new_id
  | Throw error =>
      emit (DraftInsert (row EmptyString 0) false) ;;
      throw error
  end.

Definition mark_processed (messageId : string) (s : store) : store :=
  {| draft_events := draft_events s;
     events := events s;
     processed_messages := messageId :: processed_messages s |}.

(** [supabase.functions.invoke('create-calendar-event', ...)]: the
    answer of the invoked function is not looked at. *)
Definition invoke_create_calendar_event (userId : string)
  : comp world unit :=
  emit (Invoke "create-calendar-event" userId) ;;
  Commit.handler legacy E
    {| Commit.userId := userId; Commit.draftEventId := None |} ;;
  ret tt.

Definition sendQuickReplies (userId : string)
           (eventData : Extractor.EventData) : comp world unit :=
  match quick_reply_of eventData with
  | AskForDateTime => ret tt
  | ConfirmEvent => ret tt
  | AutoCreate => invoke_create_calendar_event userId
  end.

Definition main (req : request) : comp world response :=
  ocrText <- performOCR (mediaUrl req) ;;
  eventData <- lift (Extractor.parseEventFromText legacy ocrText) ;;
  draftId <- createDraftEvent (userId req) (messageId req) eventData ocrText ;;
  emit (MessageUpdate (messageId req) (message_update_ok E)) ;;
  when (message_update_ok E)
    (update_store (mark_processed (messageId req))) ;;
  sendQuickReplies (userId req) eventData ;;
  ret (Success draftId (Extractor.confidence eventData)).

Definition handler (req : request) : comp world response :=
  fun w =>
    match main req w with
    | (Normal r, w') => (Normal r, w')
    | (Throw error, w') =>
        (Normal (Failure 500 (Commit.message error)), w')
    end.

End WithWorld.

End Ingest.

(* ================================================================== *)
(** * The webhook: [instagram-webhook] *)

Module Webhook.
Import JSString Regex.
Local Open Scope string_scope.

(** ** Incoming events *)















(** ** What the webhook asks of the other functions *)
Inductive invocation : Type :=
| UpdateDraftEvent (userId action : string) (value : option string)
| CreateCalendarEvent (body : Commit.request)
| ProcessOcr (body : Ingest.request)
| ProcessText (userId messageId text : string).

(** [s.replace(p, '')] for a string pattern: the first occurrence goes. *)
Fixpoint remove_first (p s : chars) : chars :=
  if starts_with p s then skipn (List.length p) s
  else match s with
       | [] => []
       | c :: s' => c :: remove_first p s'
       end.


(** ** [handleQuickReply] *)
Definition handleQuickReply (userId payload : string) : list invocation :=
  if starts_with (of_string "CONFIRM_DATE:") (of_string payload) then
    [UpdateDraftEvent userId "confirm_date"
       (Some (to_string (remove_first (of_string "CONFIRM_DATE:")
                                      (of_string payload))))]
  else if String.eqb payload "SAVE" then
    [CreateCalendarEvent {| Commit.userId := userId;
                            Commit.draftEventId := None |}]
  else if String.eqb payload "CANCEL" then
    [UpdateDraftEvent userId "cancel" None]
  else [].


End Webhook.

(* ================================================================== *)
(** * Facts about binary64 comparison and addition *)

Module FloatFacts.

Lemma SFcompare_antisym (a b : spec_float) :
  SFcompare b a = option_map CompOpp (SFcompare a b).
Proof.
  destruct a as [sa | sa | | sa ma ea], b as [sb | sb | | sb mb eb];
    simpl; try reflexivity;
    try (destruct sa; reflexivity); try (destruct sb; reflexivity);
    try (destruct sa, sb; reflexivity).
  destruct sa, sb; simpl; try reflexivity;
    rewrite (Z.compare_antisym ea eb);
    destruct (ea ?= eb)%Z; simpl; try reflexivity;
    rewrite (Pos.compare_cont_antisym ma mb Eq); simpl;
    try reflexivity;
    destruct (Pos.compare_cont Eq ma mb); reflexivity.
Qed.

(** [y <= x] excludes [x < y]. *)
Lemma leb_not_ltb (x y : float) :
  (y <=? x)%float = true -> (x <? y)%float = false.
Proof.
  rewrite leb_spec, ltb_spec. unfold SFleb, SFltb.
  rewrite (SFcompare_antisym (Prim2SF y) (Prim2SF x)).
  destruct (SFcompare (Prim2SF y) (Prim2SF x)) as [[ | | ] | ];
    simpl; congruence.
Qed.

Lemma ltb_leb (x y : float) :
  (x <? y)%float = true -> (x <=? y)%float = true.
Proof.
  rewrite leb_spec, ltb_spec. unfold SFleb, SFltb.
  destruct (SFcompare (Prim2SF x) (Prim2SF y)) as [[ | | ] | ];
    simpl; congruence.
Qed.

Lemma SFcompare_none (a b : spec_float) :
  SFcompare a b = None -> a = S754_nan \/ b = S754_nan.
Proof.
  destruct a as [sa | sa | | sa ma ea], b as [sb | sb | | sb mb eb];
    simpl; auto; discriminate.
Qed.

(** Neither [a < b] nor [b < a], and both are numbers: then [a <= b]. *)
Lemma SF_not_ltb_leb (a b : spec_float) :
  a <> S754_nan -> b <> S754_nan ->
  SFltb a b = false -> SFltb b a = false -> SFleb a b = true.
Proof.
  intros Ha Hb. unfold SFltb, SFleb. rewrite (SFcompare_antisym a b).
  destruct (SFcompare a b) as [[ | | ] | ] eqn:C; simpl; try congruence.
  apply SFcompare_none in C. tauto.
Qed.

(** ** Sums of non-negative numbers

    [nonneg] holds of the zeros, the positive finite numbers and plus
    infinity: the numbers [x] with [0 <= x]. *)

Definition nonneg (f : spec_float) : bool :=
  match f with
  | S754_zero _ => true
  | S754_infinity s => negb s
  | S754_finite s _ _ => negb s
  | S754_nan => false
  end.

Lemma iter_pos_invariant {A} (P : A -> Prop) (f : A -> A) :
  (forall a, P a -> P (f a)) ->
  forall p a, P a -> P (iter_pos f p a).
Proof.
  intros Hf. induction p as [p IH | p IH | ]; intros a Ha; simpl; auto.
Qed.

Lemma shr_1_nonneg (mrs : shr_record) :
  (0 <= shr_m mrs)%Z -> (0 <= shr_m (shr_1 mrs))%Z.
Proof.
  destruct mrs as [m r s]. simpl.
  destruct m as [ | [p | p | ] | p]; simpl; intros H; lia.
Qed.

Lemma shr_nonneg (mrs : shr_record) (e n : Z) :
  (0 <= shr_m mrs)%Z -> (0 <= shr_m (fst (shr mrs e n)))%Z.
Proof.
  intros H. unfold shr. destruct n as [ | p | p]; simpl; auto.
  apply (iter_pos_invariant (fun x => (0 <= shr_m x)%Z)); auto.
  apply shr_1_nonneg.
Qed.

Lemma shr_record_of_loc_m (m : Z) (l : location) :
  shr_m (shr_record_of_loc m l) = m.
Proof. destruct l as [ | [ | | ]]; reflexivity. Qed.

Lemma shr_fexp_nonneg (prec emax m e : Z) (l : location) :
  (0 <= m)%Z -> (0 <= shr_m (fst (shr_fexp prec emax m e l)))%Z.
Proof.
  intros H. unfold shr_fexp. apply shr_nonneg.
  now rewrite shr_record_of_loc_m.
Qed.

Lemma round_nearest_even_nonneg (m : Z) (l : location) :
  (0 <= m)%Z -> (0 <= round_nearest_even m l)%Z.
Proof.
  intros H. destruct l as [ | [ | | ]]; simpl; try lia.
  destruct (Z.even m); lia.
Qed.

Lemma binary_round_aux_nonneg (prec emax m e : Z) (l : location) :
  (0 <= m)%Z -> nonneg (binary_round_aux prec emax false m e l) = true.
Proof.
  intros H. unfold binary_round_aux.
  pose proof (shr_fexp_nonneg prec emax m e l H) as H1.
  destruct (shr_fexp prec emax m e l) as [mrs' e']. simpl in H1.
  pose proof (shr_fexp_nonneg prec emax _ e' loc_Exact
                (round_nearest_even_nonneg _ (loc_of_shr_record mrs') H1))
    as H2.
  destruct (shr_fexp prec emax
              (round_nearest_even (shr_m mrs') (loc_of_shr_record mrs'))
              e' loc_Exact) as [mrs'' e'']. simpl in H2.
  destruct (shr_m mrs'') as [ | q | q]; simpl; try reflexivity; try lia.
  destruct (e'' <=? emax - prec)%Z; reflexivity.
Qed.

Lemma SFadd_nonneg (prec emax : Z) (x y : spec_float) :
  nonneg x = true -> nonneg y = true ->
  nonneg (SFadd prec emax x y) = true.
Proof.
  destruct x as [sx | sx | | sx mx ex], y as [sy | sy | | sy my ey];
    simpl; intros Hx Hy; try discriminate; auto.
  all: try (destruct sx, sy; simpl in *; congruence).
  destruct sx, sy; try discriminate. unfold cond_Zopp.
  set (a := fst (shl_align mx ex _)). set (b := fst (shl_align my ey _)).
  unfold binary_normalize. cbn [IntDef.Z.add]. unfold binary_round.
  clearbody a b.
  destruct (shl_align (a + b) _ _) as [mz ez].
  apply binary_round_aux_nonneg. lia.
Qed.

Lemma zero_leb_nonneg (f : spec_float) :
  nonneg f = true -> SFleb (S754_zero false) f = true.
Proof.
  destruct f as [s | [ | ] | | [ | ] m e]; simpl; intros H;
    try discriminate; reflexivity.
Qed.

(** The same facts on primitive floats. *)
Definition nonnegative (x : float) : bool := nonneg (Prim2SF x).

Lemma add_nonnegative (x y : float) :
  nonnegative x = true -> nonnegative y = true ->
  nonnegative (x + y)%float = true.
Proof.
  unfold nonnegative. rewrite add_spec. apply SFadd_nonneg.
Qed.

Lemma nonnegative_leb (x : float) :
  nonnegative x = true -> (0 <=? x)%float = true.
Proof.
  intros H. rewrite leb_spec. now apply zero_leb_nonneg.
Qed.

Lemma nonnegative_not_nan (x : float) :
  nonnegative x = true -> PrimFloat.is_nan x = false.
Proof.
  unfold nonnegative, PrimFloat.is_nan. intros H.
  rewrite eqb_spec. unfold SFeqb.
  destruct (Prim2SF x) as [s | s | | s m e]; simpl in *;
    try discriminate; try reflexivity.
  - now destruct s.
  - destruct s; try discriminate. simpl.
    rewrite Z.compare_refl, Pos.compare_cont_refl. reflexivity.
Qed.

End FloatFacts.

(* ================================================================== *)
(** * Facts about dates: printing and parsing agree *)

Module DateFacts.
Import JSString JSDate.

(** ** Years *)

Lemma YearFromDay_spec (d : Z) :
  DayFromYear (YearFromDay d) <= d < DayFromYear (YearFromDay d + 1).
Proof.
  unfold YearFromDay.
  set (y0 := 1970 + d * 400 / 146097).
  assert (Hy : 146097 * (y0 - 1970) <= 400 * d <
               146097 * (y0 - 1970) + 146097).
  { unfold y0.
    pose proof (Z.div_mod (d * 400) 146097 ltac:(lia)).
    pose proof (Z.mod_pos_bound (d * 400) 146097 ltac:(lia)). lia. }
  clearbody y0.
  destruct (Z.ltb_spec d (DayFromYear y0)) as [E1 | E1].
  - unfold DayFromYear in *. Z.to_euclidean_division_equations. lia.
  - destruct (Z.leb_spec (DayFromYear (y0 + 1)) d) as [E2 | E2].
    + unfold DayFromYear in *. Z.to_euclidean_division_equations. lia.
    + lia.
Qed.

Lemma leap_step_4 (y : Z) :
  (y - 1968) / 4 - (y - 1969) / 4 = if y mod 4 =? 0 then 1 else 0.
Proof.
  destruct (Z.eqb_spec (y mod 4) 0);
    Z.to_euclidean_division_equations; lia.
Qed.

Lemma leap_step_100 (y : Z) :
  (y - 1900) / 100 - (y - 1901) / 100 = if y mod 100 =? 0 then 1 else 0.
Proof.
  destruct (Z.eqb_spec (y mod 100) 0);
    Z.to_euclidean_division_equations; lia.
Qed.

Lemma leap_step_400 (y : Z) :
  (y - 1600) / 400 - (y - 1601) / 400 = if y mod 400 =? 0 then 1 else 0.
Proof.
  destruct (Z.eqb_spec (y mod 400) 0);
    Z.to_euclidean_division_equations; lia.
Qed.

Lemma DaysInYear (y : Z) :
  DayFromYear (y + 1) - DayFromYear y = if InLeapYear y then 366 else 365.
Proof.
  unfold DayFromYear, InLeapYear.
  replace (y + 1 - 1969) with (y - 1968) by lia.
  replace (y + 1 - 1901) with (y - 1900) by lia.
  replace (y + 1 - 1601) with (y - 1600) by lia.
  pose proof (leap_step_4 y) as H4. pose proof (leap_step_100 y) as H100.
  pose proof (leap_step_400 y) as H400.
  assert (C1 : y mod 400 = 0 -> y mod 100 = 0)
    by (Z.to_euclidean_division_equations; lia).
  assert (C2 : y mod 100 = 0 -> y mod 4 = 0)
    by (Z.to_euclidean_division_equations; lia).
  destruct (Z.eqb_spec (y mod 4) 0); destruct (Z.eqb_spec (y mod 100) 0);
    destruct (Z.eqb_spec (y mod 400) 0); cbn [andb orb negb]; lia.
Qed.

Lemma day_in_year_range (d : Z) :
  let y := YearFromDay d in
  0 <= d - DayFromYear y < if InLeapYear y then 366 else 365.
Proof.
  intros y. pose proof (YearFromDay_spec d) as H.
  pose proof (DaysInYear y) as D. fold y in H.
  destruct (InLeapYear y); lia.
Qed.

Lemma YearFromDay_bound (d : Z) :
  -100000000 <= d <= 100000000 -> -999999 <= YearFromDay d <= 999999.
Proof.
  intros H. pose proof (YearFromDay_spec d) as S.
  unfold DayFromYear in S. Z.to_euclidean_division_equations. lia.
Qed.

(** ** Months *)

Lemma MonthFromDayInYear_spec (leap : bool) (diy : Z) :
  0 <= diy < (if leap then 366 else 365) ->
  let mo := MonthFromDayInYear leap diy in
  1 <= mo <= 12 /\
  DaysBeforeMonth leap mo <= diy < DaysBeforeMonth leap (mo + 1).
Proof.
  intros H. unfold MonthFromDayInYear.
  destruct leap; cbn [DaysBeforeMonth Z.add Pos.add];
    repeat match goal with
           | |- context [if ?a <? ?b then _ else _] =>
               destruct (Z.ltb_spec a b)
           end; cbn; lia.
Qed.

(** ** Decimal fields *)

Lemma digit_char_spec (x : Z) :
  0 <= x <= 9 ->
  is_digit (digit_char x) = true /\ digit_val (digit_char x) = x.
Proof.
  intros H.
  assert (C : x = 0 \/ x = 1 \/ x = 2 \/ x = 3 \/ x = 4 \/ x = 5 \/
              x = 6 \/ x = 7 \/ x = 8 \/ x = 9) by lia.
  repeat (destruct C as [C | C]; [subst x; split; reflexivity | ]).
  subst x. split; reflexivity.
Qed.

Lemma take_digits_pad (w : nat) :
  forall (k : nat) (n acc : Z) (rest : chars),
    0 <= n < 10 ^ Z.of_nat w ->
    take_digits (w + k) acc (pad w n ++ rest) =
    take_digits k (acc * 10 ^ Z.of_nat w + n) rest.
Proof.
  induction w as [ | w IH]; intros k n acc rest H.
  - simpl in *. f_equal. lia.
  - rewrite Nat2Z.inj_succ, Z.pow_succ_r in H by lia.
    cbn [pad]. rewrite <- app_assoc. cbn [app].
    replace (S w + k)%nat with (w + S k)%nat by lia.
    rewrite IH by (Z.to_euclidean_division_equations; lia).
    cbn [take_digits].
    destruct (digit_char_spec (n mod 10)) as [D1 D2];
      [Z.to_euclidean_division_equations; lia | ].
    rewrite D1, D2. f_equal.
    rewrite Nat2Z.inj_succ, Z.pow_succ_r by lia.
    Z.to_euclidean_division_equations. nia.
Qed.

Lemma take_digits_field (w : nat) (n : Z) (rest : chars) :
  0 <= n < 10 ^ Z.of_nat w ->
  take_digits w 0 (pad w n ++ rest) = Some (n, rest).
Proof.
  intros H. pose proof (take_digits_pad w 0 n 0 rest H) as P.
  rewrite Nat.add_0_r in P. rewrite P. reflexivity.
Qed.

Lemma pad_head (w : nat) :
  forall n, 0 <= n ->
    exists c t, pad (S w) n = c :: t /\ is_digit c = true.
Proof.
  induction w as [ | w IH]; intros n H.
  - exists (digit_char (n mod 10)), []. split; [reflexivity | ].
    apply digit_char_spec. Z.to_euclidean_division_equations. lia.
  - destruct (IH (n / 10)) as (c & t & E & D);
      [Z.to_euclidean_division_equations; lia | ].
    exists c, (t ++ [digit_char (n mod 10)]).
    split; [ | exact D].
    change (pad (S (S w)) n) with (pad (S w) (n / 10) ++ [digit_char (n mod 10)]).
    rewrite E. reflexivity.
Qed.

Lemma digit_is_no_sign (c : ascii) :
  is_digit c = true ->
  Ascii.eqb c (ch "+") = false /\ Ascii.eqb c (ch "-") = false.
Proof.
  intros H. split.
  - destruct (Ascii.eqb_spec c (ch "+")) as [E | E]; [ | reflexivity].
    subst c. discriminate.
  - destruct (Ascii.eqb_spec c (ch "-")) as [E | E]; [ | reflexivity].
    subst c. discriminate.
Qed.

Lemma parse_year_field (y : Z) (rest : chars) :
  -999999 <= y <= 999999 ->
  parse_year (year_field y ++ rest) = Some (y, rest).
Proof.
  intros H. unfold year_field.
  destruct ((0 <=? y) && (y <=? 9999)) eqn:R.
  - apply andb_true_iff in R. destruct R as [R1 R2].
    apply Z.leb_le in R1, R2.
    destruct (pad_head 3 y R1) as (c & t & E & D).
    pose proof (take_digits_field 4 y rest ltac:(simpl; lia)) as T.
    rewrite E in *. cbn [app] in *. unfold parse_year.
    destruct (digit_is_no_sign c D) as [N1 N2]. rewrite N1, N2. exact T.
  - destruct (Z.ltb_spec y 0) as [L | L].
    + cbn [app]. unfold parse_year.
      change (Ascii.eqb (ch "-") (ch "+")) with false.
      change (Ascii.eqb (ch "-") (ch "-")) with true. cbv iota.
      rewrite (take_digits_field 6 (Z.abs y) rest) by (simpl; lia).
      cbn [bind]. destruct (Z.eqb_spec (Z.abs y) 0) as [Z0 | Z0]; [lia | ].
      cbn [negb guard bind]. f_equal. f_equal. lia.
    + cbn [app]. unfold parse_year.
      change (Ascii.eqb (ch "+") (ch "+")) with true. cbv iota.
      rewrite (take_digits_field 6 (Z.abs y) rest) by (simpl; lia).
      f_equal. f_equal. lia.
Qed.

(** ** The whole string *)

Lemma iso_parse_fields (y mo d h mi s ms : Z) :
  -999999 <= y <= 999999 ->
  1 <= mo <= 12 -> 1 <= d <= DaysInMonth (InLeapYear y) mo ->
  0 <= h <= 23 -> 0 <= mi <= 59 -> 0 <= s <= 59 -> 0 <= ms <= 999 ->
  iso_parse
    (year_field y ++ ch "-" :: pad 2 mo ++ ch "-" :: pad 2 d ++
     ch "T" :: pad 2 h ++ ch ":" :: pad 2 mi ++
     ch ":" :: pad 2 s ++ ch "." :: pad 3 ms ++ [ch "Z"]) =
  TimeClip (Some (MakeDate (MakeDay y mo d) (MakeTime h mi s ms))).
Proof.
  intros Hy Hmo Hd Hh Hmi Hs Hms.
  assert (Dm : DaysInMonth (InLeapYear y) mo <= 31).
  { unfold DaysInMonth.
    assert (C : mo = 1 \/ mo = 2 \/ mo = 3 \/ mo = 4 \/ mo = 5 \/ mo = 6 \/
                mo = 7 \/ mo = 8 \/ mo = 9 \/ mo = 10 \/ mo = 11 \/ mo = 12)
      by lia.
    destruct (InLeapYear y);
      repeat (destruct C as [C | C]; [subst mo; cbn; lia | ]);
      subst mo; cbn; lia. }
  unfold iso_parse. rewrite parse_year_field by assumption. cbn [bind].
  unfold parse_month_day. cbn [expect]. rewrite Ascii.eqb_refl.
  rewrite (take_digits_field 2 mo) by (simpl; lia). cbn [bind expect].
  rewrite Ascii.eqb_refl.
  rewrite (take_digits_field 2 d) by (simpl; lia). cbn [bind].
  replace ((1 <=? mo) && (mo <=? 12) && (1 <=? d) &&
           (d <=? DaysInMonth (InLeapYear y) mo)) with true
    by (symmetry; rewrite !andb_true_iff, !Z.leb_le; lia).
  cbn [guard bind].
  unfold parse_time. cbn [expect]. rewrite Ascii.eqb_refl. cbn [bind].
  rewrite (take_digits_field 2 h) by (simpl; lia). cbn [bind expect].
  rewrite Ascii.eqb_refl. cbn [bind].
  rewrite (take_digits_field 2 mi) by (simpl; lia). cbn [bind].
  unfold parse_seconds. cbn [expect]. rewrite Ascii.eqb_refl.
  rewrite (take_digits_field 2 s) by (simpl; lia). cbn [bind expect].
  rewrite Ascii.eqb_refl.
  rewrite (take_digits_field 3 ms) by (simpl; lia). cbn [bind].
  unfold parse_offset. rewrite Ascii.eqb_refl. cbn [bind].
  replace ((h <=? 23) && (mi <=? 59) && (s <=? 59)) with true
    by (symmetry; rewrite !andb_true_iff, !Z.leb_le; lia).
  cbn [guard bind]. rewrite Z.sub_0_r. reflexivity.
Qed.

(** Parsing what [toISOString] prints gives back the time value. *)
Theorem iso_parse_iso_of_time (t : Z) :
  - maxTime <= t <= maxTime -> iso_parse (iso_of_time t) = Some t.
Proof.
  intros H. unfold iso_of_time.
  set (day := t / msPerDay). set (tod := t mod msPerDay).
  set (y := YearFromDay day). set (leap := InLeapYear y).
  set (diy := day - DayFromYear y).
  set (mo := MonthFromDayInYear leap diy).
  assert (Ht : t = day * msPerDay + tod /\ 0 <= tod < msPerDay).
  { unfold day, tod, msPerDay. Z.to_euclidean_division_equations. lia. }
  assert (Hday : -100000000 <= day <= 100000000).
  { unfold maxTime, msPerDay in *. lia. }
  pose proof (YearFromDay_bound day Hday) as Hy. fold y in Hy.
  pose proof (day_in_year_range day) as Hdiy. cbv zeta in Hdiy.
  fold y in Hdiy. fold leap in Hdiy. fold diy in Hdiy.
  pose proof (MonthFromDayInYear_spec leap diy Hdiy) as Hmo.
  cbv zeta in Hmo. fold mo in Hmo. destruct Hmo as [Hmo Hbefore].
  unfold msPerDay in Ht.
  rewrite iso_parse_fields.
  - unfold TimeClip.
    replace (MakeDate (MakeDay y mo (diy - DaysBeforeMonth leap mo + 1))
               (MakeTime (tod / 3600000) (tod / 60000 mod 60)
                         (tod / 1000 mod 60) (tod mod 1000))) with t.
    + replace ((- maxTime <=? t) && (t <=? maxTime)) with true
        by (symmetry; rewrite andb_true_iff, !Z.leb_le; lia).
      reflexivity.
    + unfold MakeDate, MakeDay, MakeTime, msPerDay. fold leap.
      unfold diy.
      assert (Tm : ((tod / 3600000 * 60 + tod / 60000 mod 60) * 60 +
                    tod / 1000 mod 60) * 1000 + tod mod 1000 = tod)
        by (Z.to_euclidean_division_equations; lia).
      rewrite Tm. lia.
  - exact Hy.
  - exact Hmo.
  - fold leap. unfold DaysInMonth. lia.
  - Z.to_euclidean_division_equations. lia.
  - Z.to_euclidean_division_equations. lia.
  - Z.to_euclidean_division_equations. lia.
  - Z.to_euclidean_division_equations. lia.
Qed.

(** The printed string has a [T] in it. *)
Lemma starts_with_app (p b : chars) : starts_with p (p ++ b) = true.
Proof.
  induction p as [ | x p IH]; simpl; auto. now rewrite Ascii.eqb_refl.
Qed.

Lemma starts_with_includes (p s : chars) :
  starts_with p s = true -> includes p s = true.
Proof. intros H. destruct s; simpl; now rewrite H. Qed.

Lemma includes_middle (p : chars) (a b : chars) :
  includes p (a ++ p ++ b) = true.
Proof.
  induction a as [ | c a IH].
  - cbn [app]. apply starts_with_includes, starts_with_app.
  - cbn [app includes]. rewrite IH. apply orb_true_r.
Qed.

Lemma iso_of_time_has_T (t : Z) :
  includes (of_string "T") (iso_of_time t) = true.
Proof.
  unfold iso_of_time.
  match goal with
  | |- includes _ (?a ++ ?c1 :: ?b ++ ?c2 :: ?c ++ ?tee :: ?rest) = true =>
      replace (a ++ c1 :: b ++ c2 :: c ++ tee :: rest)
        with ((a ++ c1 :: b ++ c2 :: c) ++ [tee] ++ rest)
        by (repeat (rewrite <- ?app_assoc; cbn [app]); reflexivity)
  end.
  apply includes_middle.
Qed.

End DateFacts.

(* ================================================================== *)
(** * Facts about the matcher: which groups a match defines *)

Module RegexFacts.
Import JSString Regex.

(** Every successful path through [r] passes a [Cap i]. *)
Fixpoint always_caps (i : nat) (r : regex) : bool :=
  match r with
  | Eps | Chr _ | Star _ => false
  | Seq r1 r2 => always_caps i r1 || always_caps i r2
  | Alt r1 r2 => always_caps i r1 && always_caps i r2
  | Cap j r1 => Nat.eqb i j || always_caps i r1
  end.

Definition defined (i : nat) (c : caps) : Prop := cap_get i c <> None.

(** [c'] defines every group that [c] does. *)
Definition extends (c c' : caps) : Prop :=
  forall i, defined i c -> defined i c'.

Lemma extends_refl c : extends c c.
Proof. intros i H. exact H. Qed.

Lemma extends_trans c1 c2 c3 :
  extends c1 c2 -> extends c2 c3 -> extends c1 c3.
Proof. intros H12 H23 i H. auto. Qed.

Lemma extends_cons c i v : extends c ((i, v) :: c).
Proof.
  intros j H. unfold defined in *. simpl.
  destruct (Nat.eqb j i); [discriminate | exact H].
Qed.

Lemma defined_cons i v c : defined i ((i, v) :: c).
Proof. unfold defined. simpl. rewrite Nat.eqb_refl. discriminate. Qed.

Section Paths.
Context {R : Type}.

(** Where a successful match leaves off: the continuation was entered
    with captures that extend the initial ones and that define every
    group the pattern always captures. *)
Definition reaches (r : regex) (c : caps)
           (k : chars -> caps -> option R) (x : R) : Prop :=
  exists s' c',
    k s' c' = Some x /\ extends c c' /\
    (forall i, always_caps i r = true -> defined i c').

Lemma m_reaches (r : regex) :
  forall s c (k : chars -> caps -> option R) x,
    m r s c k = Some x -> reaches r c k x.
Proof.
  induction r as [ | p | r1 IH1 r2 IH2 | r1 IH1 r2 IH2 | r1 IH1 | j r1 IH1];
    intros s c k x H; simpl in H.
  - exists s, c. repeat split; auto using extends_refl; try discriminate.
  - destruct s as [ | a s']; [discriminate | ].
    destruct (p a); [ | discriminate].
    exists s', c. repeat split; auto using extends_refl; try discriminate.
  - apply IH1 in H. destruct H as (s1 & c1 & H & E1 & A1).
    apply IH2 in H. destruct H as (s2 & c2 & H & E2 & A2).
    exists s2, c2. repeat split; eauto using extends_trans.
    intros i Hi. simpl in Hi. apply orb_true_iff in Hi.
    destruct Hi as [Hi | Hi]; auto; apply E2; auto.
  - destruct (m r1 s c k) as [y | ] eqn:H1.
    + inversion H; subst y. apply IH1 in H1.
      destruct H1 as (s1 & c1 & H1 & E1 & A1).
      exists s1, c1. repeat split; auto.
      intros i Hi. simpl in Hi. apply andb_true_iff in Hi. apply A1, Hi.
    + apply IH2 in H. destruct H as (s2 & c2 & H & E2 & A2).
      exists s2, c2. repeat split; auto.
      intros i Hi. simpl in Hi. apply andb_true_iff in Hi. apply A2, Hi.
  - revert H. generalize (List.length s) as fuel. intros fuel.
    revert s c. induction fuel as [ | fuel IHf]; intros s c H.
    + exists s, c. repeat split; auto using extends_refl; try discriminate.
    + match type of H with
      | match ?t with _ => _ end = _ => destruct t as [y | ] eqn:H1
      end.
      * inversion H; subst y. apply IH1 in H1.
        destruct H1 as (s1 & c1 & H1 & E1 & _).
        destruct (List.length s1 <? List.length s)%nat; [ | discriminate].
        apply IHf in H1. destruct H1 as (s2 & c2 & H2 & E2 & _).
        exists s2, c2. repeat split; eauto using extends_trans;
          try discriminate.
      * exists s, c. repeat split; auto using extends_refl; try discriminate.
  - apply IH1 in H. destruct H as (s1 & c1 & H & E1 & A1).
    eexists _, _. split; [exact H | split].
    + eapply extends_trans; [exact E1 | apply extends_cons].
    + intros i Hi. simpl in Hi. apply orb_true_iff in Hi.
      destruct Hi as [Hi | Hi].
      * apply Nat.eqb_eq in Hi. subst i. apply defined_cons.
      * apply extends_cons. auto.
Qed.
End Paths.

Lemma match_here_defines (r : regex) (s : chars) (x : match_result) (i : nat) :
  always_caps i r = true -> match_here r s = Some x ->
  defined i (groups x).
Proof.
  intros Hi H. unfold match_here in H. apply m_reaches in H.
  destruct H as (s' & c' & H & _ & A). inversion H; subst x. simpl. auto.
Qed.

(** A group that the pattern always captures is defined in every match. *)
Lemma exec_defines (r : regex) (i : nat) :
  always_caps i r = true ->
  forall s x, exec r s = Some x -> defined i (groups x).
Proof.
  intros Hi. induction s as [ | a s IH]; intros x H; simpl in H.
  - destruct (match_here r []) eqn:E; [ | discriminate].
    inversion H; subst. eapply match_here_defines; eauto.
  - destruct (match_here r (a :: s)) eqn:E.
    + inversion H; subst. eapply match_here_defines; eauto.
    + auto.
Qed.

End RegexFacts.

(* ================================================================== *)
(** * Facts about the extractor *)

Module ExtractorFacts.
Import JSString JSDate Regex Comp Extractor FloatFacts RegexFacts.

(** ** Invariants of the local variables *)

Section Invariant.
Variable P : vars -> Prop.

(** [c] keeps [P], however it completes. *)
Definition keeps {A} (c : comp vars A) : Prop :=
  forall v, P v -> P (snd (c v)).

Lemma keeps_ret {A} (a : A) : keeps (ret a).
Proof. intros v H. exact H. Qed.

Lemma keeps_bind {A B} (c : comp vars A) (f : A -> comp vars B) :
  keeps c -> (forall a, keeps (f a)) -> keeps (bind c f).
Proof.
  intros Hc Hf v H. unfold bind. specialize (Hc v H).
  destruct (c v) as [[a | e] v']; simpl in *; auto. now apply Hf.
Qed.

Lemma keeps_get : keeps get.
Proof. intros v H. exact H. Qed.

Lemma keeps_modify (f : vars -> vars) :
  (forall v, P v -> P (f v)) -> keeps (modify f).
Proof. intros Hf v H. simpl. auto. Qed.

Lemma keeps_lift {A} (r : completion A) : keeps (lift r).
Proof. intros v H. exact H. Qed.

Lemma keeps_throw {A} (e : exn) : keeps (throw (A := A) e).
Proof. intros v H. exact H. Qed.

Lemma keeps_when (b : bool) (c : comp vars unit) :
  keeps c -> keeps (when b c).
Proof. destruct b; simpl; auto using keeps_ret. Qed.

Lemma keeps_try_catch (body handler : comp vars unit) :
  keeps body -> keeps handler -> keeps (try_catch body handler).
Proof.
  intros Hb Hh v H. unfold try_catch. specialize (Hb v H).
  destruct (body v) as [[a | e] v']; simpl in *; auto.
Qed.

Lemma keeps_for_each {A} (xs : list A) (body : A -> comp vars unit) :
  (forall x, keeps (body x)) -> keeps (for_each xs body).
Proof.
  intros Hb. induction xs as [ | x xs IH]; simpl;
    auto using keeps_ret, keeps_bind.
Qed.

End Invariant.

(** The confidence is a sum of non-negative terms throughout. *)
Definition inv (v : vars) : Prop := nonnegative (v_confidence v) = true.

Abbreviation steady := (keeps inv).

(** The start is empty or was printed by [toISOString]. *)
Definition iso_or_empty (v : vars) : Prop :=
  v_start_dt v = [] \/ exists t, v_start_dt v = iso_of_time t.

Abbreviation printed := (keeps iso_or_empty).

Lemma steady_modify (f : vars -> vars) :
  (forall v, v_confidence (f v) = v_confidence v) -> steady (modify f).
Proof. intros Hf. apply keeps_modify. unfold inv. intros v. now rewrite Hf. Qed.

Lemma steady_add_confidence (d : float) :
  nonnegative d = true -> steady (add_confidence d).
Proof.
  intros Hd. apply keeps_modify. unfold inv. simpl. intros v H.
  now apply add_nonnegative.
Qed.

Lemma printed_modify (f : vars -> vars) :
  (forall v, v_start_dt (f v) = v_start_dt v) -> printed (modify f).
Proof.
  intros Hf. apply keeps_modify. unfold iso_or_empty. intros v.
  now rewrite Hf.
Qed.

(** [c] completes normally. *)
Definition returns {A} (c : comp vars A) : Prop :=
  forall v, exists a, fst (c v) = Normal a.

Lemma returns_ret {A} (a : A) : returns (ret a : comp vars A).
Proof. intros v. now exists a. Qed.

Lemma returns_bind {A B} (c : comp vars A) (f : A -> comp vars B) :
  returns c -> (forall a, returns (f a)) -> returns (bind c f).
Proof.
  intros Hc Hf v. unfold bind. destruct (Hc v) as [a Ha].
  destruct (c v) as [[a' | e] v']; simpl in *; [ | discriminate].
  apply Hf.
Qed.

Lemma returns_get : returns (get : comp vars vars).
Proof. intros v. now exists v. Qed.

Lemma returns_modify (f : vars -> vars) : returns (modify f).
Proof. intros v. now exists tt. Qed.

Lemma returns_when (b : bool) (c : comp vars unit) :
  returns c -> returns (when b c).
Proof. destruct b; simpl; auto using returns_ret. Qed.

Lemma returns_try_catch (body handler : comp vars unit) :
  returns handler -> returns (try_catch body handler).
Proof.
  intros Hh v. unfold try_catch.
  destruct (body v) as [[a | e] v']; simpl; eauto.
Qed.

Lemma returns_for_each {A} (xs : list A) (body : A -> comp vars unit) :
  (forall x, returns (body x)) -> returns (for_each xs body).
Proof.
  intros Hb. induction xs as [ | x xs IH]; simpl;
    auto using returns_ret, returns_bind.
Qed.

Ltac step_comp :=
  repeat first
    [ apply keeps_ret | apply returns_ret
    | apply keeps_get | apply returns_get
    | apply returns_modify | apply keeps_lift | apply keeps_throw
    | apply keeps_bind; [ | intros ? ]
    | apply returns_bind; [ | intros ? ]
    | apply keeps_when | apply returns_when
    | apply keeps_try_catch | apply returns_try_catch
    | apply steady_modify; intros ?; reflexivity
    | apply steady_add_confidence; vm_compute; reflexivity
    | apply printed_modify; intros ?; reflexivity
    | match goal with
      | |- keeps _ (match ?x with _ => _ end) => destruct x
      | |- returns (match ?x with _ => _ end) => destruct x
      | |- keeps _ (if ?x then _ else _) => destruct x
      | |- returns (if ?x then _ else _) => destruct x
      end ].

Section WithEngine.
Variable legacy : string -> option Z.

(** ** The [try] block never throws, so the [catch] block never runs *)

Lemma date_try_returns (matchedText : chars) :
  returns (date_try legacy matchedText).
Proof.
  intros v. unfold date_try, bind, lift, new_Date.
  destruct (Date_of_string legacy (to_string matchedText)) as [t | ];
    simpl; eauto.
Qed.

Lemma try_catch_date (matchedText : chars) (v : vars) :
  try_catch (date_try legacy matchedText) (date_catch matchedText) v =
  date_try legacy matchedText v.
Proof.
  unfold try_catch. destruct (date_try_returns matchedText v) as [a Ha].
  destruct (date_try legacy matchedText v) as [[a' | e] v']; simpl in *;
    [now destruct a' | discriminate].
Qed.

(** ** Every step keeps the invariant and returns *)

Lemma date_try_steady (matchedText : chars) :
  steady (date_try legacy matchedText).
Proof.
  unfold date_try. step_comp.
Qed.

Lemma date_step_steady (line : chars) (r : regex) :
  steady (date_step legacy line r).
Proof.
  unfold date_step. destruct (exec r line) as [mt | ]; [ | step_comp].
  intros v H. rewrite try_catch_date. now apply date_try_steady.
Qed.

Lemma date_step_returns (line : chars) (r : regex) :
  returns (date_step legacy line r).
Proof.
  unfold date_step. destruct (exec r line) as [mt | ]; [ | step_comp].
  intros v. rewrite try_catch_date. apply date_try_returns.
Qed.

Lemma time_step_steady (line : chars) : steady (time_step legacy line).
Proof.
  unfold time_step. step_comp.
Qed.

Lemma time_step_returns (line : chars) : returns (time_step legacy line).
Proof.
  unfold time_step. step_comp.
Qed.

Lemma scan_dates_steady (lines : list chars) :
  steady (scan_dates legacy lines).
Proof.
  unfold scan_dates. apply keeps_for_each. intros line.
  apply keeps_bind.
  - apply keeps_for_each. apply date_step_steady.
  - intros _. apply time_step_steady.
Qed.

Lemma scan_dates_returns (lines : list chars) :
  returns (scan_dates legacy lines).
Proof.
  unfold scan_dates. apply returns_for_each. intros line.
  apply returns_bind.
  - apply returns_for_each. apply date_step_returns.
  - intros _. apply time_step_returns.
Qed.

(** ** Location: group 1 is always there, so [trim] has a receiver *)

Lemma location_loop_steady (rs : list regex) (line : chars) :
  steady (location_loop rs line).
Proof. induction rs as [ | r rs IH]; simpl; step_comp; exact IH. Qed.

Lemma location_loop_returns (rs : list regex) (line : chars) :
  forallb (always_caps 1) rs = true ->
  returns (location_loop rs line).
Proof.
  induction rs as [ | r rs IH]; simpl; intros H; [step_comp | ].
  apply andb_true_iff in H. destruct H as [Hr Hrs].
  apply returns_bind; [apply returns_get | intros v].
  destruct (exec r line) as [mt | ] eqn:E; auto.
  destruct (negb (nonempty (v_location v))); auto.
  pose proof (exec_defines r 1 Hr line mt E) as D. unfold defined in D.
  destruct (cap_get 1 (groups mt)); [step_comp | congruence].
Qed.

Lemma extract_location_steady (lines : list chars) :
  steady (extract_location lines).
Proof. apply keeps_for_each. intros. apply location_loop_steady. Qed.

Lemma extract_location_returns (lines : list chars) :
  returns (extract_location lines).
Proof.
  apply returns_for_each. intros. now apply location_loop_returns.
Qed.

(** ** Title, notes, default end *)

Lemma extract_title_steady (lines : list chars) :
  steady (extract_title lines).
Proof. unfold extract_title. step_comp. Qed.

Lemma extract_title_returns (lines : list chars) :
  returns (extract_title lines).
Proof. unfold extract_title. step_comp. Qed.

Lemma extract_notes_steady (lines : list chars) :
  steady (extract_notes lines).
Proof. unfold extract_notes. step_comp. Qed.

Lemma extract_notes_returns (lines : list chars) :
  returns (extract_notes lines).
Proof. unfold extract_notes. step_comp. Qed.

Lemma default_end_steady : steady (default_end legacy).
Proof. unfold default_end. step_comp. Qed.

Lemma default_end_returns : returns (default_end legacy).
Proof. unfold default_end. step_comp. Qed.

(** A match that parses replaces the start and adds the bonus, whatever
    the start held before. *)
Lemma date_step_overwrites (line : chars) (r : regex) (mt : match_result)
      (t : Z) (v : vars) :
  exec r line = Some mt ->
  Date_of_string legacy (to_string (matched_text mt)) = Some t ->
  date_step legacy line r v =
    (Normal tt,
     set_confidence (v_confidence v + 0.3)%float
       (set_dateFound true (set_start_dt (iso_of_time t) v))).
Proof.
  intros Hm Ht. unfold date_step. rewrite Hm. cbv zeta.
  rewrite try_catch_date. unfold date_try, bind, lift, new_Date.
  rewrite Ht. reflexivity.
Qed.

(** A match that does not parse changes nothing. *)
Lemma date_step_ignores_unparsed (line : chars) (r : regex)
      (mt : match_result) (v : vars) :
  exec r line = Some mt ->
  Date_of_string legacy (to_string (matched_text mt)) = None ->
  date_step legacy line r v = (Normal tt, v).
Proof.
  intros Hm Ht. unfold date_step. rewrite Hm. cbv zeta.
  rewrite try_catch_date. unfold date_try, bind, lift, new_Date.
  rewrite Ht. reflexivity.
Qed.

(** ** The start is only ever a printed date *)

Lemma date_try_printed (matchedText : chars) :
  printed (date_try legacy matchedText).
Proof.
  intros v H. unfold date_try, bind, lift, new_Date.
  destruct (Date_of_string legacy (to_string matchedText)) as [t | ];
    simpl; auto.
  right. now exists t.
Qed.

Lemma date_step_printed (line : chars) (r : regex) :
  printed (date_step legacy line r).
Proof.
  unfold date_step. destruct (exec r line) as [mt | ]; [ | step_comp].
  intros v H. rewrite try_catch_date. now apply date_try_printed.
Qed.

(** Under the invariant the merge of the time of day is never entered. *)
Lemma merge_guard_is_false (v : vars) :
  iso_or_empty v ->
  nonempty (v_start_dt v) &&
  negb (includes (of_string "T") (v_start_dt v)) = false.
Proof.
  intros [E | [t E]]; rewrite E.
  - reflexivity.
  - rewrite DateFacts.iso_of_time_has_T. apply andb_false_r.
Qed.

Lemma time_step_unfold (line : chars) (v : vars) :
  iso_or_empty v ->
  time_step legacy line v =
  match exec timeRegex line with
  | Some _ =>
      if v_timeFound v then (Normal tt, v)
      else (Normal tt,
            set_confidence (v_confidence v + 0.2)%float
                           (set_timeFound true v))
  | None => (Normal tt, v)
  end.
Proof.
  intros H. unfold time_step, bind, get.
  destruct (exec timeRegex line) as [mt | ]; [ | reflexivity].
  destruct (v_timeFound v); [reflexivity | ].
  cbn [negb when]. unfold bind, modify, add_confidence, get, modify.
  cbn [fst snd].
  rewrite (merge_guard_is_false
             (set_confidence (v_confidence (set_timeFound true v) + 0.2)%float
                             (set_timeFound true v)) H).
  reflexivity.
Qed.

(** The time scan leaves the start alone. *)
Lemma time_step_start (line : chars) (v : vars) :
  iso_or_empty v ->
  v_start_dt (snd (time_step legacy line v)) = v_start_dt v.
Proof.
  intros H. rewrite time_step_unfold by assumption.
  destruct (exec timeRegex line); [destruct (v_timeFound v) | ]; reflexivity.
Qed.

Lemma time_step_printed (line : chars) : printed (time_step legacy line).
Proof.
  intros v H. unfold iso_or_empty. now rewrite time_step_start.
Qed.

Lemma scan_dates_printed (lines : list chars) :
  printed (scan_dates legacy lines).
Proof.
  unfold scan_dates. apply keeps_for_each. intros line.
  apply keeps_bind.
  - apply keeps_for_each. apply date_step_printed.
  - intros _. apply time_step_printed.
Qed.

Lemma location_loop_printed (rs : list regex) (line : chars) :
  printed (location_loop rs line).
Proof. induction rs as [ | r rs IH]; simpl; step_comp; exact IH. Qed.

Lemma body_printed (text : string) : printed (body legacy text).
Proof.
  unfold body, extract_title, extract_location, extract_notes, default_end,
    clamp.
  apply keeps_bind; [step_comp | intros _].
  apply keeps_bind; [apply scan_dates_printed | intros _].
  apply keeps_bind;
    [apply keeps_for_each; intros; apply location_loop_printed | intros _].
  step_comp.
Qed.

(** The extractor's start is absent or a date printed by [toISOString]:
    the raw text of a match is never returned. *)
Lemma start_is_absent_or_printed (text : string) (e : EventData) :
  parseEventFromText legacy text = Normal e ->
  start_dt e = None \/
  exists t, start_dt e = Some (to_string (iso_of_time t)).
Proof.
  unfold parseEventFromText. intros H.
  pose proof (body_printed text init (or_introl eq_refl)) as P.
  destruct (body legacy text init) as [[a | x] v]; [ | discriminate].
  inversion H; subst e; clear H. simpl in *. unfold or_undefined.
  destruct P as [E | [t E]]; rewrite E.
  - now left.
  - destruct (nonempty (iso_of_time t)); [right; now exists t | now left].
Qed.

(** ** The whole body *)

(** From a state satisfying [P], [c] returns in a state satisfying [Q]. *)
Definition hoare {A} (P : vars -> Prop) (c : comp vars A)
           (Q : vars -> Prop) : Prop :=
  forall v, P v -> exists a v', c v = (Normal a, v') /\ Q v'.

Lemma hoare_bind {A B} P Q R (c : comp vars A) (f : A -> comp vars B) :
  hoare P c Q -> (forall a, hoare Q (f a) R) -> hoare P (bind c f) R.
Proof.
  intros Hc Hf v H. unfold bind.
  destruct (Hc v H) as (a & v' & E & HQ). rewrite E. now apply Hf.
Qed.

Lemma hoare_inv {A} (c : comp vars A) :
  steady c -> returns c -> hoare inv c inv.
Proof.
  intros Hs Hr v H. specialize (Hs v H). destruct (Hr v) as [a Ha].
  destruct (c v) as [r v']; simpl in *. subst r. eauto.
Qed.

Definition in_unit_interval (x : float) : Prop :=
  (0 <=? x)%float = true /\ (x <=? 1)%float = true.

Lemma Math_min_one (x : float) :
  nonnegative x = true -> in_unit_interval (Math_min x 1).
Proof.
  intros H. unfold Math_min, in_unit_interval.
  rewrite (nonnegative_not_nan x H).
  change (PrimFloat.is_nan 1) with false. simpl.
  destruct (x <? 1)%float eqn:L1.
  - split; [now apply nonnegative_leb | now apply ltb_leb].
  - destruct (1 <? x)%float eqn:L2; [split; reflexivity | ].
    assert (E : (x <=? 1)%float = true).
    { rewrite leb_spec. rewrite ltb_spec in L1, L2.
      apply SF_not_ltb_leb; auto.
      - unfold nonnegative in H. intros N. rewrite N in H. discriminate.
      - assert (P1 : Prim2SF 1 = S754_finite false 4503599627370496 (-52))
          by reflexivity.
        rewrite P1. discriminate. }
    destruct (PrimFloat.classify x);
      (split; [try reflexivity; now apply nonnegative_leb
              | try reflexivity; exact E]).
Qed.

Lemma clamp_hoare :
  hoare inv clamp (fun v => in_unit_interval (v_confidence v)).
Proof.
  intros v H. exists tt. eexists. split; [reflexivity | ].
  simpl. now apply Math_min_one.
Qed.

Lemma body_hoare (text : string) :
  hoare inv (body legacy text)
        (fun v => in_unit_interval (v_confidence v)).
Proof.
  unfold body.
  eapply hoare_bind;
    [apply hoare_inv;
     [apply extract_title_steady | apply extract_title_returns] | intros _].
  eapply hoare_bind;
    [apply hoare_inv;
     [apply scan_dates_steady | apply scan_dates_returns] | intros _].
  eapply hoare_bind;
    [apply hoare_inv;
     [apply extract_location_steady | apply extract_location_returns]
    | intros _].
  eapply hoare_bind;
    [apply hoare_inv;
     [apply extract_notes_steady | apply extract_notes_returns]
    | intros _].
  eapply hoare_bind;
    [apply hoare_inv;
     [apply default_end_steady | apply default_end_returns] | intros _].
  apply clamp_hoare.
Qed.

Lemma inv_init : inv init.
Proof. vm_compute. reflexivity. Qed.

End WithEngine.

(** ** The extractor sees the engine only through the strings it parses *)

Lemma bind_ext {A B} (c1 c2 : comp vars A) (f1 f2 : A -> comp vars B) :
  (forall v, c1 v = c2 v) -> (forall a v, f1 a v = f2 a v) ->
  forall v, bind c1 f1 v = bind c2 f2 v.
Proof.
  intros Hc Hf v. unfold bind. rewrite Hc.
  destruct (c2 v) as [[a | e] v']; auto.
Qed.

Lemma for_each_ext {A} (xs : list A) (b1 b2 : A -> comp vars unit) :
  (forall x v, b1 x v = b2 x v) ->
  forall v, for_each xs b1 v = for_each xs b2 v.
Proof.
  intros Hb. induction xs as [ | x xs IH]; intros v; simpl; auto.
  apply bind_ext; auto.
Qed.

Section Agreement.
Variables l1 l2 : string -> option Z.
Hypothesis agree : forall s, l1 s = l2 s.

Lemma new_Date_ext (s : chars) : new_Date l1 s = new_Date l2 s.
Proof.
  unfold new_Date, Date_of_string, Date_parse. now rewrite agree.
Qed.

Lemma date_step_ext (line : chars) (r : regex) :
  date_step l1 line r = date_step l2 line r.
Proof.
  unfold date_step, date_try. destruct (exec r line) as [mt | ]; auto.
  now rewrite new_Date_ext.
Qed.

Lemma time_step_ext (line : chars) (v : vars) :
  time_step l1 line v = time_step l2 line v.
Proof.
  unfold time_step. apply bind_ext; auto. intros v0 v1.
  destruct (exec timeRegex line) as [mt | ]; auto.
  destruct (negb (v_timeFound v0)); auto. simpl.
  apply bind_ext; auto. intros _ v2.
  apply bind_ext; auto. intros _ v3.
  apply bind_ext; auto. intros v4 v5.
  match goal with
  | |- when ?b _ _ = _ => destruct b; auto
  end.
  simpl. unfold try_catch.
  destruct (cap_get 1 (groups mt)) as [g | ]; unfold bind at 1 3; simpl;
    rewrite new_Date_ext; reflexivity.
Qed.

Lemma scan_dates_ext (lines : list chars) (v : vars) :
  scan_dates l1 lines v = scan_dates l2 lines v.
Proof.
  unfold scan_dates. apply for_each_ext. intros line v0.
  apply bind_ext.
  - intros v1. apply for_each_ext. intros r v2. now rewrite date_step_ext.
  - intros _ v1. apply time_step_ext.
Qed.

Lemma default_end_ext (v : vars) : default_end l1 v = default_end l2 v.
Proof.
  unfold default_end. apply bind_ext; auto. intros v0 v1.
  now rewrite new_Date_ext.
Qed.

Lemma parseEventFromText_ext (text : string) :
  parseEventFromText l1 text = parseEventFromText l2 text.
Proof.
  unfold parseEventFromText.
  assert (E : body l1 text init = body l2 text init).
  { unfold body. apply bind_ext; auto. intros _ v1.
    apply bind_ext; [apply scan_dates_ext | intros _ v2].
    apply bind_ext; auto. intros _ v3.
    apply bind_ext; auto. intros _ v4.
    apply bind_ext; [apply default_end_ext | auto]. }
  now rewrite E.
Qed.

End Agreement.

(** An engine that answers NaN on one string and is [legacy] elsewhere. *)
Definition rejecting (s0 : string) (legacy : string -> option Z)
  : string -> option Z :=
  fun s => if String.eqb s s0 then None else legacy s.

Lemma rejecting_agrees (s0 : string) (legacy : string -> option Z) :
  legacy s0 = None -> forall s, legacy s = rejecting s0 legacy s.
Proof.
  intros H s. unfold rejecting. destruct (String.eqb_spec s s0); congruence.
Qed.

End ExtractorFacts.

(* ================================================================== *)
(** * The confidence policy and the extractor's bounds *)

Import JSString JSDate Comp Store.

Definition nl : string := String (ascii_of_N 10) EmptyString.

(** An engine without heuristics of its own: it parses the standard format
    and nothing else. *)
Definition strict_engine : string -> option Z := fun _ => None.

(** C2. The [needs_confirmation] flag that [createDraftEvent] stores is true
    exactly when the confidence is below 0.8, or the start is absent, or the
    title is absent; with a confidence of at least 0.8, a title and a start
    it is false, and a missing title or start forces it to true whatever
    the confidence. *)
Theorem needs_confirmation_rule (e : Extractor.EventData) :
  (Ingest.needs_confirmation_of e = true <->
   (Extractor.confidence e <? 0.8)%float = true \/
   absent (Extractor.start_dt e) = true \/
   absent (Extractor.title e) = true) /\
  ((0.8 <=? Extractor.confidence e)%float = true /\
   absent (Extractor.title e) = false /\
   absent (Extractor.start_dt e) = false ->
   Ingest.needs_confirmation_of e = false) /\
  (absent (Extractor.title e) = true \/ absent (Extractor.start_dt e) = true ->
   Ingest.needs_confirmation_of e = true).
Proof.
  unfold Ingest.needs_confirmation_of. repeat split.
  - intros H. apply orb_true_iff in H. destruct H as [H | H]; auto.
    apply orb_true_iff in H. tauto.
  - intros [H | [H | H]]; rewrite H; rewrite ?orb_true_r; reflexivity.
  - intros (Hc & Ht & Hs).
    rewrite (FloatFacts.leb_not_ltb _ _ Hc), Ht, Hs. reflexivity.
  - intros [H | H]; rewrite H; rewrite ?orb_true_r; reflexivity.
Qed.

Definition sample_event : Extractor.EventData :=
  {| Extractor.title := Some "CLUB INFO SESSION"%string;
     Extractor.start_dt := Some "2024-09-15T19:00:00.000Z"%string;
     Extractor.end_dt := Some "2024-09-15T21:00:00.000Z"%string;
     Extractor.location := None;
     Extractor.notes := None;
     Extractor.confidence := 1.0%float |}.

Lemma needs_confirmation_rule_witness :
  Ingest.needs_confirmation_of sample_event = false.
Proof.
  apply (proj1 (proj2 (needs_confirmation_rule sample_event))).
  repeat split; reflexivity.
Defined.

(** C7. For every input text the extractor returns, with a confidence in
    [0, 1]; on the empty text every field is empty and the confidence is
    exactly 0.5. *)
Theorem confidence_in_unit_interval
  (legacy : string -> option Z) (text : string) :
  (exists e,
     Extractor.parseEventFromText legacy text = Normal e /\
     (0 <=? Extractor.confidence e)%float = true /\
     (Extractor.confidence e <=? 1)%float = true) /\
  Extractor.parseEventFromText legacy EmptyString =
    Normal {| Extractor.title := None;
              Extractor.start_dt := None;
              Extractor.end_dt := None;
              Extractor.location := None;
              Extractor.notes := None;
              Extractor.confidence := 0.5%float |}.
Proof.
  split; [ | reflexivity].
  destruct (ExtractorFacts.body_hoare legacy text Extractor.init
              ExtractorFacts.inv_init) as (a & v & E & H0 & H1).
  unfold Extractor.parseEventFromText. rewrite E.
  eexists. split; [reflexivity | ]. simpl. auto.
Qed.

(* ================================================================== *)
(** * What the date scan keeps *)

Definition one_date : string := "Date: 2024-09-15T19:00:00Z".

Definition two_dates : string :=
  "Date: 2024-09-15T19:00:00Z" ++ nl ++ "Date: 2025-01-01T00:00:00Z".

(** C1. On two lines that each carry a parseable date, the scan keeps the
    last parse, not the first, and adds the parse bonus once per parse: the
    first line alone gives a start on 2024-09-15 and a confidence of
    0.5 + 0.3; with the second line the start is 2025-01-01 and the
    confidence 0.5 + 0.3 + 0.3, clamped to 1. *)
Theorem later_parse_replaces_start (legacy : string -> option Z) :
  Extractor.parseEventFromText legacy one_date =
    Normal {| Extractor.title := None;
              Extractor.start_dt := Some "2024-09-15T19:00:00.000Z"%string;
              Extractor.end_dt := Some "2024-09-15T21:00:00.000Z"%string;
              Extractor.location := None;
              Extractor.notes := None;
              Extractor.confidence := 0.8%float |} /\
  Extractor.parseEventFromText legacy two_dates =
    Normal {| Extractor.title := None;
              Extractor.start_dt := Some "2025-01-01T00:00:00.000Z"%string;
              Extractor.end_dt := Some "2025-01-01T02:00:00.000Z"%string;
              Extractor.location := None;
              Extractor.notes := None;
              Extractor.confidence := 1.0%float |}.
Proof. split; vm_compute; reflexivity. Qed.

Definition unparseable_date : string := "Date: TBD".

(** C4. A date match that does not parse leaves no trace: the [catch] block
    that would store the raw text never runs, because constructing a date
    from a string does not throw.  On ["Date: TBD"] the start stays empty
    and the confidence stays at 0.5. *)
Theorem unparsed_match_is_dropped (legacy : string -> option Z) :
  legacy "TBD"%string = None ->
  Extractor.parseEventFromText legacy unparseable_date =
    Normal {| Extractor.title := None;
              Extractor.start_dt := None;
              Extractor.end_dt := None;
              Extractor.location := None;
              Extractor.notes := None;
              Extractor.confidence := 0.5%float |}.
Proof.
  intros H.
  rewrite (ExtractorFacts.parseEventFromText_ext _ _
             (ExtractorFacts.rejecting_agrees _ _ H)).
  vm_compute. reflexivity.
Qed.

Lemma unparsed_match_is_dropped_witness :
  Extractor.start_dt
    (match Extractor.parseEventFromText strict_engine unparseable_date with
     | Normal e => e
     | Throw _ => sample_event
     end) = None.
Proof.
  rewrite (unparsed_match_is_dropped strict_engine eq_refl). reflexivity.
Defined.

Definition date_then_time : string := "Date: 2024-09-15" ++ nl ++ "7:00 pm".

(** C5. A date line followed by a time of day is not merged: the start is
    already in ISO form when the time is found, so the merge is skipped and
    the start remains midnight of the date. *)
Theorem time_is_not_merged (legacy : string -> option Z) :
  legacy "7:00 pm"%string = None ->
  Extractor.parseEventFromText legacy date_then_time =
    Normal {| Extractor.title := Some "7:00 pm"%string;
              Extractor.start_dt := Some "2024-09-15T00:00:00.000Z"%string;
              Extractor.end_dt := Some "2024-09-15T02:00:00.000Z"%string;
              Extractor.location := None;
              Extractor.notes := None;
              Extractor.confidence := 1.0%float |}.
Proof.
  intros H.
  rewrite (ExtractorFacts.parseEventFromText_ext _ _
             (ExtractorFacts.rejecting_agrees _ _ H)).
  vm_compute. reflexivity.
Qed.

Lemma time_is_not_merged_witness :
  Extractor.start_dt
    (match Extractor.parseEventFromText strict_engine date_then_time with
     | Normal e => e
     | Throw _ => sample_event
     end) = Some "2024-09-15T00:00:00.000Z"%string.
Proof.
  rewrite (time_is_not_merged strict_engine eq_refl). reflexivity.
Defined.

(* ================================================================== *)
(** * The commit handler *)

Module CommitFacts.
Import Commit.
Local Open Scope string_scope.

(** The answer of the draft query of a request: data and error. *)
Definition selected (E : env) (req : request) (s : store)
  : option draft_event * option string :=
  maybeSingle E
    (draftQuery (userId req) (draftEventId req) (draft_events s)).

(** The world after the draft query has been sent. *)
Definition queried (req : request) (w : world) : world :=
  {| w_store := w_store w;
     w_trace := (w_trace w ++ [DraftQuery (userId req) (draftEventId req)])%list |}.

Lemma main_unfold legacy E req w :
  main legacy E req w =
  (let '(draftEvent, draftError) := selected E req (w_store w) in
   match draftError with
   | Some msg => throw (Error ("Database error: " ++ msg))
   | None =>
       match draftEvent with
       | None => throw (Error "No draft event found")
       | Some draftEvent =>
           if absent (Store.start_dt draftEvent) then
             throw (Error "Event start time is required")
           else
             accessToken <- getValidAccessToken E (userId req) ;;
             googleEvent <- lift (buildGoogleEvent legacy draftEvent) ;;
             calendarResponse <-
               createGoogleCalendarEvent E accessToken googleEvent ;;
             let row :=
               {| e_user_id := userId req;
                  draft_event_id := id draftEvent;
                  google_event_id := cr_id calendarResponse;
                  calendar_id := "primary";
                  request_payload := googleEvent;
                  response_payload := calendarResponse |} in
             emit (EventInsert row (event_insert_ok E)) ;;
             when (event_insert_ok E) (update_store (add_event row)) ;;
             emit (DraftUpdate (id draftEvent) (draft_update_ok E)) ;;
             when (draft_update_ok E)
               (update_store (mark_confirmed (id draftEvent))) ;;
             ret (Success {| eventId := cr_id calendarResponse;
                             eventLink := htmlLink calendarResponse;
                             r_title := Store.title draftEvent;
                             startTime := Store.start_dt draftEvent |})
       end
   end) (queried req w).
Proof. reflexivity. Qed.

(** No row of the user is eligible: the query without an id finds nothing. *)
Lemma no_eligible_draft E req s :
  draft_query_error E = None ->
  absent (draftEventId req) = true ->
  (forall d, In d (draft_events s) -> user_id d = userId req ->
             needs_confirmation d = true) ->
  selected E req s = (None, None).
Proof.
  intros HE Hid Hall. unfold selected, maybeSingle, draftQuery.
  rewrite HE, Hid.
  assert (F : filter (fun d => negb (needs_confirmation d))
                (filter (fun d => String.eqb (user_id d) (userId req))
                        (draft_events s)) = []).
  { induction (draft_events s) as [ | d l IH]; simpl; auto.
    destruct (String.eqb_spec (user_id d) (userId req)) as [Hu | Hu]; simpl.
    - rewrite (Hall d (or_introl eq_refl) Hu). simpl.
      apply IH. intros d' Hd'. apply Hall. now right.
    - apply IH. intros d' Hd'. apply Hall. now right. }
  rewrite F. reflexivity.
Qed.

(** Every row with the requested id belongs to someone else: the query with
    that id finds nothing. *)
Lemma foreign_draft_not_selected E req s did :
  draft_query_error E = None ->
  draftEventId req = Some did -> truthy did = true ->
  (forall d, In d (draft_events s) -> id d = did ->
             user_id d <> userId req) ->
  selected E req s = (None, None).
Proof.
  intros HE Hid Ht Hall. unfold selected, maybeSingle, draftQuery.
  rewrite HE, Hid. simpl. rewrite Ht. simpl.
  assert (F : filter (fun d => String.eqb (id d) did)
                (filter (fun d => String.eqb (user_id d) (userId req))
                        (draft_events s)) = []).
  { induction (draft_events s) as [ | d l IH]; simpl; auto.
    destruct (String.eqb_spec (user_id d) (userId req)) as [Hu | Hu]; simpl.
    - destruct (String.eqb_spec (id d) did) as [Hd | Hd].
      + exfalso. exact (Hall d (or_introl eq_refl) Hd Hu).
      + apply IH. intros d' Hd'. apply Hall. now right.
    - apply IH. intros d' Hd'. apply Hall. now right. }
  rewrite F. reflexivity.
Qed.

Lemma handler_no_draft legacy E req w :
  selected E req (w_store w) = (None, None) ->
  handler legacy E req w =
    (Normal (Failure 500 "No draft event found"), queried req w).
Proof.
  intros H. unfold handler. rewrite main_unfold, H. reflexivity.
Qed.

Lemma handler_no_start legacy E req w d :
  selected E req (w_store w) = (Some d, None) ->
  absent (Store.start_dt d) = true ->
  handler legacy E req w =
    (Normal (Failure 500 "Event start time is required"), queried req w).
Proof.
  intros H Hs. unfold handler. rewrite main_unfold, H, Hs. reflexivity.
Qed.

(** ** The steps after the checks *)

(** What [getValidAccessToken] answers and sends, whatever the world. *)
Definition token_outcome (E : env) (userId : string)
  : completion string * list effect :=
  let '(r, w) :=
    getValidAccessToken E userId
      {| w_store := {| draft_events := []; events := [];
                       processed_messages := [] |};
         w_trace := [] |} in
  (r, w_trace w).

Lemma getValidAccessToken_frame E userId w :
  getValidAccessToken E userId w =
    (fst (token_outcome E userId),
     {| w_store := w_store w;
        w_trace := (w_trace w ++ snd (token_outcome E userId))%list |}).
Proof.
  unfold token_outcome, getValidAccessToken.
  unfold bind, emit, modify, throw, ret. simpl.
  destruct (user_row E) as [[[tok | ] rt] | ]; simpl; auto.
  destruct (truthy tok); simpl; auto.
  destruct ((probe_status E =? 401)%Z && negb (absent rt)); simpl.
  - destruct (refresh E); simpl; rewrite <- !app_assoc; reflexivity.
  - destruct (negb ((200 <=? probe_status E)%Z && (probe_status E <=? 299)%Z));
      simpl; rewrite <- !app_assoc; reflexivity.
Qed.

(** The row that the handler writes to [events]. *)
Definition event_row_of (req : request) (d : draft_event)
           (ev : GoogleCalendarEvent) (resp : calendar_response) : event_row :=
  {| e_user_id := userId req;
     draft_event_id := id d;
     google_event_id := cr_id resp;
     calendar_id := "primary";
     request_payload := ev;
     response_payload := resp |}.

Definition success_of (d : draft_event) (resp : calendar_response)
  : response :=
  Success {| eventId := cr_id resp;
             eventLink := htmlLink resp;
             r_title := Store.title d;
             startTime := Store.start_dt d |}.

(** A run in which the draft is found, a token is obtained and the calendar
    accepts the event: the answer is a success whatever the two writes that
    follow do, and each write changes the store only if it went through. *)
Lemma handler_after_submission legacy E req w d token ev resp :
  selected E req (w_store w) = (Some d, None) ->
  absent (Store.start_dt d) = false ->
  fst (token_outcome E (userId req)) = Normal token ->
  buildGoogleEvent legacy d = Normal ev ->
  calendar E = Normal resp ->
  handler legacy E req w =
    (Normal (success_of d resp),
     {| w_store :=
          (if draft_update_ok E then mark_confirmed (id d) else fun s => s)
            ((if event_insert_ok E
              then add_event (event_row_of req d ev resp)
              else fun s => s) (w_store w));
        w_trace :=
          (w_trace w ++
           [DraftQuery (userId req) (draftEventId req)] ++
           snd (token_outcome E (userId req)) ++
           [CalendarPost token ev;
            EventInsert (event_row_of req d ev resp) (event_insert_ok E);
            DraftUpdate (id d) (draft_update_ok E)])%list |}).
Proof.
  intros Hsel Hs Htok Hev Hcal.
  unfold handler. rewrite main_unfold, Hsel, Hs.
  unfold bind at 1. rewrite getValidAccessToken_frame, Htok.
  unfold bind at 1, lift at 1. rewrite Hev.
  unfold createGoogleCalendarEvent, bind, emit, modify, lift, ret, when,
    update_store. simpl. rewrite Hcal.
  unfold success_of, event_row_of.
  destruct (event_insert_ok E), (draft_update_ok E); simpl;
    rewrite <- !app_assoc; reflexivity.
Qed.

End CommitFacts.

(* ================================================================== *)
(** * Commit: what is refused, and what is reported *)

Section CommitClaims.
Import Commit CommitFacts.
Local Open Scope string_scope.

(** ** Sample data *)

Definition empty_store : store :=
  {| draft_events := []; events := []; processed_messages := [] |}.

Definition fresh (s : store) : world := {| w_store := s; w_trace := [] |}.

Definition party : draft_event :=
  {| id := "d1"; user_id := "u1"; source_message_id := "m1";
     Store.title := Some "Party";
     Store.start_dt := Some "2024-09-15T19:00:00Z";
     Store.end_dt := None; Store.location := None; Store.notes := None;
     Store.confidence := 0.9%float; needs_confirmation := false;
     ocr_text := "Party"; created_at := 1 |}.

Definition party_store : store :=
  {| draft_events := [party]; events := []; processed_messages := [] |}.

(** Every collaborator answers; the two writes of the commit handler go
    through or not as [insert_ok] and [update_ok] say. *)
Definition answering (text : string) (insert_ok update_ok : bool) : env :=
  {| ocr := Normal text;
     draft_insert := Normal ("d2", 2%Z);
     message_update_ok := true;
     draft_query_error := None;
     user_row := Some (Some "token", None);
     probe_status := 200;
     refresh := Throw (Error "no refresh token");
     calendar := Normal {| cr_id := "g1"; htmlLink := "https://calendar/g1" |};
     event_insert_ok := insert_ok;
     draft_update_ok := update_ok |}.

Definition latest_of (u : string) : request :=
  {| userId := u; draftEventId := None |}.

Definition draft_of (u did : string) : request :=
  {| userId := u; draftEventId := Some did |}.

(** C6. When the draft query answers with no row, or with a row whose start
    is empty, the handler fails with the matching validation message, the
    store is as it was, and the only thing sent is the draft query: no
    credential lookup, no provider call, no write.  A request without an id
    for a user none of whose drafts has [needs_confirmation = false] is
    such a case, and so is a request with an id that no draft of the user
    carries. *)
Theorem commit_refuses_missing_draft_or_start
  (legacy : string -> option Z) (E : env) (req : request) (w : world) :
  selected E req (w_store w) = (None, None) \/
  (exists d, selected E req (w_store w) = (Some d, None) /\
             absent (Store.start_dt d) = true) \/
  (draft_query_error E = None /\ absent (draftEventId req) = true /\
   forall d, In d (draft_events (w_store w)) -> user_id d = userId req ->
             needs_confirmation d = true) \/
  (exists did,
     draft_query_error E = None /\ draftEventId req = Some did /\
     truthy did = true /\
     forall d, In d (draft_events (w_store w)) -> id d = did ->
               user_id d <> userId req) ->
  exists msg,
    (msg = "No draft event found" \/ msg = "Event start time is required") /\
    handler legacy E req w =
      (Normal (Failure 500 msg),
       {| w_store := w_store w;
          w_trace := (w_trace w ++
                      [DraftQuery (userId req) (draftEventId req)])%list |}).
Proof.
  intros [H | [(d & H & Hs) | [(HE & Hid & Hall) | (did & HE & Hid & Ht & Hall)]]].
  - eexists. split; [left; reflexivity | ]. now apply handler_no_draft.
  - eexists. split; [right; reflexivity | ].
    now apply (handler_no_start legacy E req w d).
  - eexists. split; [left; reflexivity | ]. apply handler_no_draft.
    now apply no_eligible_draft.
  - eexists. split; [left; reflexivity | ]. apply handler_no_draft.
    now apply (foreign_draft_not_selected E req (w_store w) did).
Qed.

Lemma commit_refuses_missing_draft_or_start_witness :
  exists msg,
    (msg = "No draft event found" \/ msg = "Event start time is required") /\
    handler strict_engine (answering one_date true true) (latest_of "u1")
            (fresh empty_store) =
      (Normal (Failure 500 msg),
       {| w_store := empty_store;
          w_trace := [DraftQuery "u1" None] |}).
Proof.
  apply (commit_refuses_missing_draft_or_start strict_engine
           (answering one_date true true) (latest_of "u1")
           (fresh empty_store)).
  left. reflexivity.
Defined.

(** C10. With an explicit draft id, when every draft with that id belongs
    to another user, the handler answers that no draft was found; the store
    is as it was and only the draft query was sent. *)
Theorem foreign_draft_is_not_found
  (legacy : string -> option Z) (E : env) (req : request) (w : world)
  (did : string) :
  draftEventId req = Some did -> truthy did = true ->
  draft_query_error E = None ->
  (forall d, In d (draft_events (w_store w)) -> id d = did ->
             user_id d <> userId req) ->
  handler legacy E req w =
    (Normal (Failure 500 "No draft event found"),
     {| w_store := w_store w;
        w_trace := (w_trace w ++
                    [DraftQuery (userId req) (draftEventId req)])%list |}).
Proof.
  intros Hid Ht HE Hall. apply handler_no_draft.
  now apply (foreign_draft_not_selected E req (w_store w) did).
Qed.

Lemma foreign_draft_is_not_found_witness :
  handler strict_engine (answering one_date true true) (draft_of "u2" "d1")
          (fresh party_store) =
    (Normal (Failure 500 "No draft event found"),
     {| w_store := party_store;
        w_trace := [DraftQuery "u2" (Some "d1")] |}).
Proof.
  apply (foreign_draft_is_not_found strict_engine
           (answering one_date true true) (draft_of "u2" "d1")
           (fresh party_store) "d1"); try reflexivity.
  intros d [Hd | []] _. subst d. discriminate.
Defined.

(** ** Errors that do not reach the caller *)

(** A write that failed. *)
Definition failed_write (e : effect) : bool :=
  match e with
  | EventInsert _ false | DraftUpdate _ false | MessageUpdate _ false => true
  | _ => false
  end.

(** Whenever the handler reports success, every failed write of the run is
    the insert into [events]. *)
Definition only_event_insert_is_swallowed : Prop :=
  forall legacy E req s body w',
    handler legacy E req (fresh s) = (Normal (Success body), w') ->
    forall e, In e (w_trace w') -> failed_write e = true ->
              exists row, e = EventInsert row false.

(** The update of the draft can fail as well, and the handler still
    reports success. *)
Lemma draft_update_failure_is_swallowed : ~ only_event_insert_is_swallowed.
Proof.
  intros H.
  destruct (H strict_engine (answering one_date true false)
              (draft_of "u1" "d1") party_store _ _ eq_refl
              (DraftUpdate "d1" false)) as [row Hrow].
  - vm_compute. tauto.
  - reflexivity.
  - discriminate.
Qed.

(** C9, amended. When the calendar accepts the event and the insert into
    [events] fails, the handler still reports success; nothing is sent to
    the calendar after the submission, so the event stays; the update of the
    draft is still attempted, and when it goes through the draft has
    [needs_confirmation = false].  When that update fails the store is
    unchanged and the answer is a success all the same. *)
Theorem insert_failure_is_reported_as_success
  (legacy : string -> option Z) (E : env) (req : request) (w : world)
  (d : draft_event) (token : string) (ev : GoogleCalendarEvent)
  (resp : calendar_response) :
  selected E req (w_store w) = (Some d, None) ->
  absent (Store.start_dt d) = false ->
  fst (token_outcome E (userId req)) = Normal token ->
  buildGoogleEvent legacy d = Normal ev ->
  calendar E = Normal resp ->
  event_insert_ok E = false ->
  handler legacy E req w =
    (Normal (success_of d resp),
     {| w_store := if draft_update_ok E
                   then mark_confirmed (id d) (w_store w)
                   else w_store w;
        w_trace :=
          (w_trace w ++
           [DraftQuery (userId req) (draftEventId req)] ++
           snd (token_outcome E (userId req)) ++
           [CalendarPost token ev;
            EventInsert (event_row_of req d ev resp) false;
            DraftUpdate (id d) (draft_update_ok E)])%list |}) /\
  (forall d', In d' (draft_events (mark_confirmed (id d) (w_store w))) ->
              id d' = id d -> needs_confirmation d' = false).
Proof.
  intros Hsel Hs Htok Hev Hcal Hins. split.
  - rewrite (handler_after_submission legacy E req w d token ev resp)
      by assumption.
    rewrite Hins. destruct (draft_update_ok E); reflexivity.
  - intros d' Hin Hid. unfold mark_confirmed in Hin. simpl in Hin.
    apply in_map_iff in Hin. destruct Hin as (d0 & Hd0 & _).
    destruct (String.eqb_spec (id d0) (id d)) as [E0 | E0].
    + subst d'. reflexivity.
    + subst d'. contradiction.
Qed.

Lemma insert_failure_is_reported_as_success_witness :
  fst (handler strict_engine (answering one_date false true)
               (draft_of "u1" "d1") (fresh party_store)) =
  Normal (success_of party {| cr_id := "g1"; htmlLink := "https://calendar/g1" |}).
Proof.
  rewrite (proj1 (insert_failure_is_reported_as_success strict_engine
             (answering one_date false true) (draft_of "u1" "d1")
             (fresh party_store) party "token"
             {| summary := "Party";
                description := "Created from Instagram DM" ++ nl ++ nl;
                start := {| dateTime := Some "2024-09-15T19:00:00Z";
                            timeZone := "UTC" |};
                end_ := {| dateTime := Some "2024-09-15T21:00:00.000Z";
                           timeZone := "UTC" |};
                g_location := None;
                reminders_useDefault := true |}
             {| cr_id := "g1"; htmlLink := "https://calendar/g1" |}
             eq_refl eq_refl eq_refl eq_refl eq_refl eq_refl)).
  reflexivity.
Defined.

End CommitClaims.

(* ================================================================== *)
(** * Ingestion: when the commit is triggered *)

Section IngestClaims.
Import Ingest.
Local Open Scope string_scope.

(** [sendQuickReplies] triggers the commit exactly when the start is present
    and the confidence is not below 0.8; the title plays no part. *)
Lemma auto_create_iff (e : Extractor.EventData) :
  quick_reply_of e = AutoCreate <->
  absent (Extractor.start_dt e) = false /\
  (Extractor.confidence e <? 0.8)%float = false.
Proof.
  unfold quick_reply_of.
  destruct (absent (Extractor.start_dt e));
    destruct (Extractor.confidence e <? 0.8)%float;
    split; try discriminate; intuition discriminate.
Qed.

(** A draft that needs no confirmation is committed at once. *)
Lemma unflagged_draft_is_committed (e : Extractor.EventData) :
  needs_confirmation_of e = false -> quick_reply_of e = AutoCreate.
Proof.
  unfold needs_confirmation_of. intros H. apply auto_create_iff.
  apply orb_false_iff in H. destruct H as [H _].
  apply orb_false_iff in H. tauto.
Qed.

Definition flyer : request :=
  {| userId := "u1"; messageId := "m1"; mediaUrl := "https://cdn/flyer.jpg" |}.

Definition invoked (tr : list effect) : bool :=
  existsb (fun e => match e with Invoke _ _ => true | _ => false end) tr.

(** C3. A flyer that reads ["Date: 2024-09-15T19:00:00Z"] has a start and a
    confidence of 0.8 but no title.  Its draft is stored with
    [needs_confirmation = true], and the commit function is invoked all the
    same: [sendQuickReplies] does not look at the title. *)
Theorem commit_triggered_for_flagged_draft (legacy : string -> option Z) :
  let run := handler legacy (answering one_date true true) flyer
                     (fresh empty_store) in
  fst run = Normal (Success "d2" 0.8%float) /\
  map needs_confirmation (draft_events (w_store (snd run))) = [true] /\
  invoked (w_trace (snd run)) = true /\
  w_trace (snd run) =
    [OcrFetch "https://cdn/flyer.jpg";
     DraftInsert
       {| id := "d2"; user_id := "u1"; source_message_id := "m1";
          Store.title := None;
          Store.start_dt := Some "2024-09-15T19:00:00.000Z";
          Store.end_dt := Some "2024-09-15T21:00:00.000Z";
          Store.location := None; Store.notes := None;
          Store.confidence := 0.8%float; needs_confirmation := true;
          ocr_text := one_date; created_at := 2 |} true;
     MessageUpdate "m1" true;
     Invoke "create-calendar-event" "u1";
     DraftQuery "u1" None].
Proof. vm_compute. repeat split; reflexivity. Qed.

(** When the user already has a committed draft, the invocation above
    selects that older draft, which is the latest with
    [needs_confirmation = false], and submits it to the calendar once
    more. *)
Lemma older_draft_is_submitted_again (legacy : string -> option Z) :
  let run := handler legacy (answering one_date true true) flyer
                     (fresh party_store) in
  map needs_confirmation (draft_events (w_store (snd run))) = [false; true] /\
  map draft_event_id (events (w_store (snd run))) = ["d1"] /\
  existsb contacts_calendar (w_trace (snd run)) = true.
Proof. vm_compute. repeat split; reflexivity. Qed.

End IngestClaims.

(* ================================================================== *)
(** * The payload's default end *)

Section PayloadClaims.
Import Commit.
Local Open Scope string_scope.
Local Open Scope Z_scope.

Lemma TimeClip_range (v : option Z) (t : Z) :
  TimeClip v = Some t -> - maxTime <= t <= maxTime.
Proof.
  unfold TimeClip. destruct v as [t0 | ]; [ | discriminate].
  destruct ((- maxTime <=? t0) && (t0 <=? maxTime)) eqn:R; [ | discriminate].
  intros E. inversion E; subst t0.
  apply andb_true_iff in R. rewrite !Z.leb_le in R. exact R.
Qed.

Lemma new_Date_nullable_range legacy (x : option string) (t : Z) :
  new_Date_nullable legacy x = Some t -> - maxTime <= t <= maxTime.
Proof.
  unfold new_Date_nullable, Date_of_string, Date_of_number.
  destruct x; apply TimeClip_range.
Qed.

(** What [Date.parse] makes of a string that [toISOString] printed. *)
Lemma Date_parse_printed legacy (t : Z) :
  - maxTime <= t <= maxTime ->
  Date_parse legacy (to_string (iso_of_time t)) = Some t.
Proof.
  intros H. unfold Date_parse, of_string, to_string.
  rewrite list_ascii_of_string_of_list_ascii.
  now rewrite DateFacts.iso_parse_iso_of_time.
Qed.

(** C8. For a draft without an end, [buildGoogleEvent] sets the end of the
    payload to the start plus two hours.  With the start
    2024-09-15T19:00:00Z the end is printed as 2024-09-15T21:00:00.000Z,
    which denotes the instant 2024-09-15T21:00:00Z.  In general, when the
    start denotes the time value [t], the end is the printed form of
    [t + 2h], which parses back to [t + 2h]; the only starts for which no
    payload is built are those within two hours of the largest time value
    a date can hold, and then the function throws and nothing is
    committed. *)
Theorem payload_end_is_start_plus_two_hours
  (legacy : string -> option Z) (d : draft_event) :
  absent (Store.end_dt d) = true ->
  (Store.start_dt d = Some "2024-09-15T19:00:00Z" ->
   exists ev,
     buildGoogleEvent legacy d = Normal ev /\
     dateTime (end_ ev) = Some "2024-09-15T21:00:00.000Z" /\
     Date_parse legacy "2024-09-15T21:00:00.000Z" =
       Date_parse legacy "2024-09-15T21:00:00Z" /\
     new_Date_nullable legacy (Store.start_dt d) = Some 1726426800000 /\
     Date_parse legacy "2024-09-15T21:00:00.000Z" =
       Some (1726426800000 + twoHours)) /\
  (forall t,
     new_Date_nullable legacy (Store.start_dt d) = Some t ->
     (t + twoHours <= maxTime ->
      exists ev,
        buildGoogleEvent legacy d = Normal ev /\
        dateTime (end_ ev) =
          Some (to_string (iso_of_time (t + twoHours))) /\
        Date_parse legacy (to_string (iso_of_time (t + twoHours))) =
          Some (t + twoHours)) /\
     (maxTime < t + twoHours ->
      buildGoogleEvent legacy d = Throw (RangeError "Invalid time value"))).
Proof.
  intros Hend. split.
  - intros Hstart. unfold buildGoogleEvent. rewrite Hend, Hstart.
    eexists. repeat split.
  - intros t Ht. pose proof (new_Date_nullable_range legacy _ t Ht) as R.
    unfold buildGoogleEvent, default_end_of. rewrite Hend, Ht.
    unfold time_plus, Date_of_number, TimeClip.
    assert (L : - maxTime <= t + twoHours) by (unfold twoHours; lia).
    split; intros B.
    + replace ((- maxTime <=? t + twoHours) && (t + twoHours <=? maxTime))
        with true by (symmetry; rewrite andb_true_iff, !Z.leb_le; lia).
      eexists. repeat split. apply Date_parse_printed. lia.
    + replace ((- maxTime <=? t + twoHours) && (t + twoHours <=? maxTime))
        with false
        by (symmetry; apply andb_false_iff; right; apply Z.leb_gt; lia).
      reflexivity.
Qed.

Lemma payload_end_is_start_plus_two_hours_witness :
  exists ev,
    buildGoogleEvent strict_engine party = Normal ev /\
    dateTime (end_ ev) =
      Some (to_string (iso_of_time (1726426800000 + twoHours))) /\
    Date_parse strict_engine
      (to_string (iso_of_time (1726426800000 + twoHours))) =
      Some (1726426800000 + twoHours).
Proof.
  apply (proj1 (proj2 (payload_end_is_start_plus_two_hours strict_engine
                         party eq_refl) 1726426800000 eq_refl)).
  unfold twoHours, maxTime. lia.
Defined.

End PayloadClaims.

(* ================================================================== *)
(** * Lines: what the extractor reads *)

Module LinesFacts.
Import JSString.

Definition is_LF (c : ascii) : bool := (code c =? 10)%N.

Definition blank (s : chars) : bool := forallb is_space s.

Definition no_LF (s : chars) : bool := forallb (fun c => negb (is_LF c)) s.

(** The first character, if there is one, is not white space. *)
Definition starts_clean (s : chars) : Prop :=
  match s with
  | c :: _ => is_space c = false
  | [] => True
  end.

Lemma is_LF_space (c : ascii) : is_LF c = true -> is_space c = true.
Proof.
  unfold is_LF, is_space. intros H. apply N.eqb_eq in H. now rewrite H.
Qed.

(** ** [drop_spaces] *)

Lemma drop_spaces_clean (s : chars) : starts_clean (drop_spaces s).
Proof.
  induction s as [ | c s IH]; simpl; auto.
  destruct (is_space c) eqn:E; simpl; auto.
Qed.

Lemma drop_spaces_suffix (s : chars) :
  exists p, s = p ++ drop_spaces s /\ blank p = true.
Proof.
  induction s as [ | c s (p & E & B)]; simpl.
  - now exists [].
  - destruct (is_space c) eqn:S.
    + exists (c :: p). simpl. rewrite S, B. split; [now f_equal | reflexivity].
    + now exists [].
Qed.

Lemma drop_spaces_blank (s : chars) :
  drop_spaces s = [] <-> blank s = true.
Proof.
  induction s as [ | c s IH]; simpl; [tauto | ].
  destruct (is_space c); simpl; [exact IH | ].
  split; discriminate.
Qed.

Lemma drop_spaces_fixed (s : chars) :
  starts_clean s -> drop_spaces s = s.
Proof. destruct s as [ | c s]; simpl; auto. now intros ->. Qed.

Lemma blank_app (a b : chars) : blank (a ++ b) = blank a && blank b.
Proof. apply forallb_app. Qed.

Lemma blank_rev (s : chars) : blank (rev s) = blank s.
Proof.
  induction s as [ | c s IH]; simpl; auto.
  rewrite blank_app, IH. simpl. rewrite andb_true_r. apply andb_comm.
Qed.

(** ** [trim] *)

Lemma trim_blank (s : chars) : trim s = [] <-> blank s = true.
Proof.
  unfold trim. split.
  - intros H. apply (f_equal (@rev ascii)) in H. rewrite rev_involutive in H.
    simpl in H. apply drop_spaces_blank in H. rewrite blank_rev in H.
    destruct (drop_spaces_suffix s) as (p & E & B).
    rewrite E, blank_app, B. exact H.
  - intros H. apply drop_spaces_blank in H. rewrite H. reflexivity.
Qed.

Lemma trim_starts_clean (s : chars) : starts_clean (trim s).
Proof.
  unfold trim. pose proof (drop_spaces_clean s) as D.
  destruct (drop_spaces s) as [ | c d] eqn:E; [exact I | ].
  simpl in D.
  destruct (drop_spaces_suffix (rev (c :: d))) as (p & Ep & Bp).
  remember (drop_spaces (rev (c :: d))) as r eqn:Er.
  apply (f_equal (@rev ascii)) in Ep.
  rewrite rev_involutive, rev_app_distr in Ep.
  destruct (rev r) as [ | x t] eqn:Rr.
  - exact I.
  - simpl in Ep. inversion Ep; subst x. exact D.
Qed.

Lemma trim_ends_clean (s : chars) : starts_clean (rev (trim s)).
Proof.
  unfold trim. rewrite rev_involutive. apply drop_spaces_clean.
Qed.

(** Trimming a trimmed string changes nothing. *)
Lemma trim_trim (s : chars) : trim (trim s) = trim s.
Proof.
  unfold trim at 1.
  rewrite (drop_spaces_fixed (trim s)) by apply trim_starts_clean.
  rewrite (drop_spaces_fixed (rev (trim s))) by apply trim_ends_clean.
  apply rev_involutive.
Qed.

Lemma drop_spaces_Forall (P : ascii -> Prop) (s : chars) :
  Forall P s -> Forall P (drop_spaces s).
Proof.
  induction 1 as [ | c s Hc Hs IH]; simpl; auto.
  destruct (is_space c); auto.
Qed.

Lemma trim_Forall (P : ascii -> Prop) (s : chars) :
  Forall P s -> Forall P (trim s).
Proof.
  intros H. unfold trim.
  apply Forall_rev, drop_spaces_Forall, Forall_rev, drop_spaces_Forall, H.
Qed.

(** ** [split_lines] *)

Lemma split_lines_aux_no_LF (s cur : chars) :
  no_LF cur = true ->
  Forall (fun l => no_LF l = true) (split_lines_aux cur s).
Proof.
  revert cur. induction s as [ | c s IH]; intros cur H; simpl.
  - constructor; [ | constructor]. unfold no_LF in *.
    rewrite forallb_forall in *. intros x Hx. apply H. now apply in_rev.
  - fold (is_LF c). destruct (is_LF c) eqn:E.
    + constructor; [ | now apply IH].
      unfold no_LF in *. rewrite forallb_forall in *.
      intros x Hx. apply H. now apply in_rev.
    + apply IH. simpl. now rewrite E.
Qed.

Lemma split_lines_aux_blank (s cur : chars) :
  blank cur = true -> blank s = true ->
  Forall (fun l => blank l = true) (split_lines_aux cur s).
Proof.
  revert cur. induction s as [ | c s IH]; intros cur Hc Hs; simpl.
  - constructor; [ | constructor]. now rewrite blank_rev.
  - simpl in Hs. apply andb_true_iff in Hs. destruct Hs as [Hx Hs].
    fold (is_LF c). destruct (is_LF c).
    + constructor; [now rewrite blank_rev | now apply IH].
    + apply IH; auto. simpl. now rewrite Hx.
Qed.

End LinesFacts.

(* ================================================================== *)
(** * More about the extractor *)

Section ExtractorLines.
Import Extractor LinesFacts.
Variable legacy : string -> option Z.

Lemma lines_of_clean (text : string) :
  Forall (fun line =>
            line <> [] /\ starts_clean line /\ starts_clean (rev line) /\
            no_LF line = true)
         (lines_of text).
Proof.
  unfold lines_of. apply Forall_forall. intros line H.
  apply filter_In in H. destruct H as [H N].
  apply in_map_iff in H. destruct H as (raw & E & Hraw). subst line.
  repeat split.
  - intros Z0. rewrite Z0 in N. discriminate.
  - apply trim_starts_clean.
  - apply trim_ends_clean.
  - pose proof (split_lines_aux_no_LF (of_string text) [] eq_refl) as F.
    rewrite Forall_forall in F. specialize (F raw Hraw).
    unfold no_LF in *. rewrite forallb_forall in *.
    pose proof (trim_Forall (fun c => negb (is_LF c) = true) raw) as T.
    rewrite !Forall_forall in T. auto.
Qed.

(** X1. Every line the extractor reads is non-empty, has no white space
    at either end and no line feed inside. *)
Theorem lines_are_trimmed (text : string) :
  Forall (fun line =>
            line <> [] /\ starts_clean line /\ starts_clean (rev line) /\
            no_LF line = true)
         (lines_of text).
Proof. apply lines_of_clean. Qed.

Lemma blank_text_has_no_lines (text : string) :
  blank (of_string text) = true -> lines_of text = [].
Proof.
  intros H. unfold lines_of.
  pose proof (split_lines_aux_blank (of_string text) [] eq_refl H) as F.
  unfold split_lines.
  induction F as [ | l ls Hl _ IH]; simpl; auto.
  apply trim_blank in Hl. rewrite Hl. simpl. exact IH.
Qed.

(** X2. A text of white space only (spaces, tabs, line breaks) gives the
    same result as the empty text: no field and a confidence of 0.5. *)
Theorem blank_text_gives_empty_event (text : string) :
  blank (of_string text) = true ->
  parseEventFromText legacy text =
    Normal {| title := None; start_dt := None; end_dt := None;
              location := None; notes := None; confidence := 0.5%float |}.
Proof.
  intros H. unfold parseEventFromText, body.
  rewrite (blank_text_has_no_lines text H). reflexivity.
Qed.

End ExtractorLines.

Lemma blank_text_gives_empty_event_witness :
  Extractor.parseEventFromText strict_engine ("  " ++ nl ++ " " ++ nl) =
    Normal {| Extractor.title := None; Extractor.start_dt := None;
              Extractor.end_dt := None; Extractor.location := None;
              Extractor.notes := None; Extractor.confidence := 0.5%float |}.
Proof.
  apply (blank_text_gives_empty_event strict_engine). reflexivity.
Defined.

(* ================================================================== *)
(** * Which step sets which field *)

Module ExtractorFrame.
Import JSString JSDate Regex Comp Extractor ExtractorFacts.

(** [c] leaves the value of [f] as it finds it. *)
Definition fixes {X A} (f : vars -> X) (c : comp vars A) : Prop :=
  forall x, keeps (fun v => f v = x) c.

(** [f] does not read the variable that [set] writes. *)
Definition blind {X Y} (f : vars -> X) (set : Y -> vars -> vars) : Prop :=
  forall y v, f (set y v) = f v.

Ltac frame :=
  unfold add_confidence;
  repeat first
    [ apply keeps_ret | apply keeps_get | apply keeps_lift
    | apply keeps_throw
    | apply keeps_bind; [ | intros ? ]
    | apply keeps_when | apply keeps_try_catch
    | apply keeps_for_each; intros ?
    | apply keeps_modify;
      let v := fresh "v" in let H := fresh "H" in
      intros v H; rewrite <- H; solve [auto]
    | match goal with
      | |- keeps _ (match ?x with _ => _ end) => destruct x
      | |- keeps _ (if ?x then _ else _) => destruct x
      end ].

Section Frames.
Variable legacy : string -> option Z.
Context {X : Type} (f : vars -> X).

Lemma extract_title_fixes (lines : list chars) :
  blind f set_title -> blind f set_confidence ->
  fixes f (extract_title lines).
Proof. intros B1 B2 x. unfold extract_title. frame. Qed.

Lemma scan_dates_fixes (lines : list chars) :
  blind f set_start_dt -> blind f set_dateFound ->
  blind f set_timeFound -> blind f set_confidence ->
  fixes f (scan_dates legacy lines).
Proof.
  intros B1 B2 B3 B4 x.
  unfold scan_dates, date_step, date_try, date_catch, time_step. frame.
Qed.

Lemma location_loop_fixes (rs : list regex) (line : chars) :
  blind f set_location -> blind f set_confidence ->
  fixes f (location_loop rs line).
Proof.
  intros B1 B2 x. induction rs as [ | r rs IH]; simpl; frame; exact IH.
Qed.

Lemma extract_location_fixes (lines : list chars) :
  blind f set_location -> blind f set_confidence ->
  fixes f (extract_location lines).
Proof.
  intros B1 B2 x. unfold extract_location. apply keeps_for_each.
  intros line. now apply location_loop_fixes.
Qed.

Lemma extract_notes_fixes (lines : list chars) :
  blind f set_notes -> blind f set_confidence ->
  fixes f (extract_notes lines).
Proof. intros B1 B2 x. unfold extract_notes. frame. Qed.

Lemma default_end_fixes :
  blind f set_end_dt -> fixes f (default_end legacy).
Proof. intros B1 x. unfold default_end. frame. Qed.

Lemma clamp_fixes : blind f set_confidence -> fixes f clamp.
Proof. intros B1 x. unfold clamp. frame. Qed.

End Frames.

(** ** The run of the body, step by step *)

Record stages (legacy : string -> option Z) (text : string)
       (v1 v2 v3 v4 v5 v6 : vars) : Prop := {
  st_title : extract_title (lines_of text) init = (Normal tt, v1);
  st_dates : scan_dates legacy (lines_of text) v1 = (Normal tt, v2);
  st_location : extract_location (lines_of text) v2 = (Normal tt, v3);
  st_notes : extract_notes (lines_of text) v3 = (Normal tt, v4);
  st_end : default_end legacy v4 = (Normal tt, v5);
  st_clamp : clamp v5 = (Normal tt, v6);
  st_body : body legacy text init = (Normal tt, v6)
}.

Lemma returns_state {A} (c : comp vars A) (v : vars) :
  returns c -> exists a v', c v = (Normal a, v').
Proof.
  intros H. destruct (H v) as [a Ha].
  destruct (c v) as [r v'] eqn:E. simpl in Ha. subst r. eauto.
Qed.

Lemma body_stages (legacy : string -> option Z) (text : string) :
  exists v1 v2 v3 v4 v5 v6, stages legacy text v1 v2 v3 v4 v5 v6.
Proof.
  destruct (returns_state _ init (extract_title_returns (lines_of text)))
    as ([] & v1 & E1).
  destruct (returns_state _ v1 (scan_dates_returns legacy (lines_of text)))
    as ([] & v2 & E2).
  destruct (returns_state _ v2 (extract_location_returns (lines_of text)))
    as ([] & v3 & E3).
  destruct (returns_state _ v3 (extract_notes_returns (lines_of text)))
    as ([] & v4 & E4).
  destruct (returns_state _ v4 (default_end_returns legacy))
    as ([] & v5 & E5).
  exists v1, v2, v3, v4, v5, (snd (clamp v5)).
  constructor; auto.
  unfold body, bind. rewrite E1, E2, E3, E4, E5. reflexivity.
Qed.

Lemma fixes_run {X A} (f : vars -> X) (c : comp vars A) (v v' : vars)
      (r : completion A) :
  fixes f c -> c v = (r, v') -> f v' = f v.
Proof.
  intros F E. specialize (F (f v) v eq_refl). rewrite E in F. exact F.
Qed.

End ExtractorFrame.

(* ================================================================== *)
(** * The fields of the extracted event *)

Section ExtractorFields.
Import Regex Extractor ExtractorFacts ExtractorFrame LinesFacts.
Variable legacy : string -> option Z.

Lemma parse_of_stages (text : string) (v1 v2 v3 v4 v5 v6 : vars) :
  stages legacy text v1 v2 v3 v4 v5 v6 ->
  parseEventFromText legacy text =
    Normal {| title := or_undefined (v_title v6);
              start_dt := or_undefined (v_start_dt v6);
              end_dt := or_undefined (v_end_dt v6);
              location := or_undefined (v_location v6);
              notes := or_undefined (v_notes v6);
              confidence := v_confidence v6 |}.
Proof.
  intros S. unfold parseEventFromText. now rewrite (st_body _ _ _ _ _ _ _ _ S).
Qed.

(** ** Title *)

Lemma title_of_stages (text : string) (v1 v2 v3 v4 v5 v6 : vars) :
  stages legacy text v1 v2 v3 v4 v5 v6 ->
  v_title v6 =
    match filter (is_title_candidate) (firstn 3 (lines_of text)) with
    | t :: _ => t
    | [] => []
    end.
Proof.
  intros S.
  rewrite (fixes_run v_title _ _ _ _ (clamp_fixes v_title ltac:(easy))
             (st_clamp _ _ _ _ _ _ _ _ S)).
  rewrite (fixes_run v_title _ _ _ _
             (default_end_fixes legacy v_title ltac:(easy))
             (st_end _ _ _ _ _ _ _ _ S)).
  rewrite (fixes_run v_title _ _ _ _
             (extract_notes_fixes v_title _ ltac:(easy) ltac:(easy))
             (st_notes _ _ _ _ _ _ _ _ S)).
  rewrite (fixes_run v_title _ _ _ _
             (extract_location_fixes v_title _ ltac:(easy) ltac:(easy))
             (st_location _ _ _ _ _ _ _ _ S)).
  rewrite (fixes_run v_title _ _ _ _
             (scan_dates_fixes legacy v_title _ ltac:(easy) ltac:(easy)
                               ltac:(easy) ltac:(easy))
             (st_dates _ _ _ _ _ _ _ _ S)).
  pose proof (st_title _ _ _ _ _ _ _ _ S) as T. unfold extract_title in T.
  destruct (filter is_title_candidate (firstn 3 (lines_of text)));
    inversion T; reflexivity.
Qed.

(** X3. The title is the first of the first three lines that is longer
    than five characters and mentions none of [date], [time] and
    [location] in any letter case; there is no title exactly when no such
    line is among the first three.  Nothing the later steps find changes
    it. *)
Theorem title_is_first_candidate (text : string) :
  exists e,
    parseEventFromText legacy text = Normal e /\
    (title e = None <->
     forall l, In l (firstn 3 (lines_of text)) ->
               is_title_candidate l = false) /\
    (forall s, title e = Some s ->
       exists before l after,
         firstn 3 (lines_of text) = before ++ l :: after /\
         s = to_string l /\
         (5 < List.length l)%nat /\
         includes (of_string "date") (toLowerCase l) = false /\
         includes (of_string "time") (toLowerCase l) = false /\
         includes (of_string "location") (toLowerCase l) = false /\
         forall b, In b before -> is_title_candidate b = false).
Proof.
  destruct (body_stages legacy text) as (v1 & v2 & v3 & v4 & v5 & v6 & S).
  eexists. split; [apply (parse_of_stages text _ _ _ _ _ _ S) | ].
  cbn [title]. rewrite (title_of_stages text _ _ _ _ _ _ S).
  generalize (firstn 3 (lines_of text)) as ls. intros ls.
  assert (F : forall ls,
             match filter is_title_candidate ls with
             | [] => forall l, In l ls -> is_title_candidate l = false
             | t :: _ =>
                 exists before after,
                   ls = before ++ t :: after /\ is_title_candidate t = true /\
                   forall b, In b before -> is_title_candidate b = false
             end).
  { clear. induction ls as [ | a ls IH]; simpl.
    - intros l [].
    - destruct (is_title_candidate a) eqn:Ea.
      + exists [], ls. repeat split; auto. intros b [].
      + destruct (filter is_title_candidate ls) as [ | t r].
        * intros l [H | H]; [now subst | auto].
        * destruct IH as (before & after & E & C & B).
          exists (a :: before), after. subst ls. repeat split; auto.
          intros b [H | H]; [now subst | auto]. }
  specialize (F ls).
  destruct (filter is_title_candidate ls) as [ | t r].
  - split; [split; auto | discriminate].
  - destruct F as (before & after & E & C & B).
    unfold is_title_candidate in C.
    apply andb_true_iff in C. destruct C as [C C4].
    apply andb_true_iff in C. destruct C as [C C3].
    apply andb_true_iff in C. destruct C as [C1 C2].
    apply Nat.ltb_lt in C1. apply negb_true_iff in C2, C3, C4.
    assert (N : or_undefined t = Some (to_string t)).
    { unfold or_undefined. destruct t; [simpl in C1; lia | reflexivity]. }
    rewrite N. split.
    + split; [discriminate | ]. intros H.
      assert (Ht : is_title_candidate t = false)
        by (apply H; rewrite E; apply in_elt).
      unfold is_title_candidate in Ht.
      apply Nat.ltb_lt in C1. rewrite C1, C2, C3, C4 in Ht. discriminate.
    + intros s Hs. inversion Hs; subst s.
      exists before, t, after. repeat split; auto.
Qed.

End ExtractorFields.

Section ExtractorNotes.
Import Regex Extractor ExtractorFacts ExtractorFrame LinesFacts.
Variable legacy : string -> option Z.




End ExtractorNotes.

Section ExtractorDates.
Import Regex Extractor ExtractorFacts ExtractorFrame LinesFacts.
Variable legacy : string -> option Z.

(** The start is empty, or it is the printed form of a time value that a
    date can hold. *)
Definition dated (v : vars) : Prop :=
  v_start_dt v = [] \/
  exists t, - maxTime <= t <= maxTime /\ v_start_dt v = iso_of_time t.

Lemma dated_printed (v : vars) : dated v -> iso_or_empty v.
Proof. intros [E | (t & _ & E)]; [now left | right; now exists t]. Qed.

Lemma dated_fixes {A} (c : comp vars A) :
  fixes v_start_dt c -> keeps dated c.
Proof.
  intros F v H. unfold dated in *.
  now rewrite (F (v_start_dt v) v eq_refl).
Qed.

Lemma date_step_dated (line : chars) (r : regex) :
  keeps dated (date_step legacy line r).
Proof.
  unfold date_step. destruct (exec r line) as [mt | ]; [ | apply keeps_ret].
  intros v H. rewrite try_catch_date. unfold date_try, bind, lift, new_Date.
  destruct (Date_of_string legacy (to_string (matched_text mt)))
    as [t | ] eqn:E; simpl; auto.
  right. exists t. split; [ | reflexivity].
  unfold Date_of_string in E. now apply TimeClip_range in E.
Qed.

Lemma scan_dates_dated (lines : list chars) :
  keeps dated (scan_dates legacy lines).
Proof.
  unfold scan_dates. apply keeps_for_each. intros line. apply keeps_bind.
  - apply keeps_for_each. apply date_step_dated.
  - intros _ v H. unfold dated.
    now rewrite time_step_start by now apply dated_printed.
Qed.

Lemma keeps_run {A} (P : vars -> Prop) (c : comp vars A) (v v' : vars)
      (r : completion A) :
  keeps P c -> c v = (r, v') -> P v -> P v'.
Proof. intros K E H. specialize (K v H). now rewrite E in K. Qed.

Lemma iso_of_time_nonempty (t : Z) : nonempty (iso_of_time t) = true.
Proof.
  pose proof (DateFacts.iso_of_time_has_T t) as H.
  destruct (iso_of_time t); [discriminate | reflexivity].
Qed.

(** What [default_end] does to a state whose start was printed. *)
Lemma default_end_printed (t : Z) (v : vars) :
  - maxTime <= t <= maxTime -> v_start_dt v = iso_of_time t ->
  default_end legacy v =
    (Normal tt,
     if t + twoHours <=? maxTime
     then set_end_dt (iso_of_time (t + twoHours)) v else v).
Proof.
  intros R E. unfold default_end, bind, get. rewrite E.
  rewrite iso_of_time_nonempty, DateFacts.iso_of_time_has_T.
  cbn [andb when]. unfold try_catch, bind, lift, new_Date, Date_of_string.
  rewrite Date_parse_printed by assumption.
  unfold TimeClip at 1.
  replace ((- maxTime <=? t) && (t <=? maxTime)) with true
    by (symmetry; rewrite andb_true_iff, !Z.leb_le; lia).
  unfold time_plus, Date_of_number, TimeClip.
  replace (- maxTime <=? t + twoHours) with true
    by (symmetry; apply Z.leb_le; unfold twoHours; lia).
  cbn [andb]. destruct (t + twoHours <=? maxTime); reflexivity.
Qed.

Lemma default_end_empty (v : vars) :
  v_start_dt v = [] -> default_end legacy v = (Normal tt, v).
Proof. intros E. unfold default_end, bind, get. rewrite E. reflexivity. Qed.

Lemma to_string_inj (a b : chars) : to_string a = to_string b -> a = b.
Proof.
  intros H. apply (f_equal of_string) in H. unfold of_string, to_string in H.
  now rewrite !list_ascii_of_string_of_list_ascii in H.
Qed.

(** X5. The start and the end of the extracted event go together: either
    both are absent, or the start is the ISO form of a time value [t] and
    the end is the ISO form of [t] plus two hours (absent only if that
    sum is beyond the last instant a date can hold).  The start is never
    the raw text of a match. *)
Theorem end_is_two_hours_after_start (text : string) :
  exists e,
    parseEventFromText legacy text = Normal e /\
    ((start_dt e = None /\ end_dt e = None) \/
     exists t,
       - maxTime <= t <= maxTime /\
       start_dt e = Some (to_string (iso_of_time t)) /\
       Date_parse legacy (to_string (iso_of_time t)) = Some t /\
       end_dt e =
         if t + twoHours <=? maxTime
         then Some (to_string (iso_of_time (t + twoHours))) else None).
Proof.
  destruct (body_stages legacy text) as (v1 & v2 & v3 & v4 & v5 & v6 & S).
  eexists. split; [apply (parse_of_stages legacy text _ _ _ _ _ _ S) | ].
  cbn [start_dt end_dt].
  assert (D4 : dated v4 /\ v_end_dt v4 = []).
  { split.
    - apply (keeps_run dated _ _ _ _
               (dated_fixes _ (extract_notes_fixes v_start_dt _
                                 ltac:(easy) ltac:(easy)))
               (st_notes _ _ _ _ _ _ _ _ S)).
      apply (keeps_run dated _ _ _ _
               (dated_fixes _ (extract_location_fixes v_start_dt _
                                 ltac:(easy) ltac:(easy)))
               (st_location _ _ _ _ _ _ _ _ S)).
      apply (keeps_run dated _ _ _ _ (scan_dates_dated (lines_of text))
               (st_dates _ _ _ _ _ _ _ _ S)).
      left.
      rewrite (fixes_run v_start_dt _ _ _ _
                 (extract_title_fixes v_start_dt _ ltac:(easy) ltac:(easy))
                 (st_title _ _ _ _ _ _ _ _ S)).
      reflexivity.
    - rewrite (fixes_run v_end_dt _ _ _ _
                 (extract_notes_fixes v_end_dt _ ltac:(easy) ltac:(easy))
                 (st_notes _ _ _ _ _ _ _ _ S)).
      rewrite (fixes_run v_end_dt _ _ _ _
                 (extract_location_fixes v_end_dt _ ltac:(easy) ltac:(easy))
                 (st_location _ _ _ _ _ _ _ _ S)).
      rewrite (fixes_run v_end_dt _ _ _ _
                 (scan_dates_fixes legacy v_end_dt _ ltac:(easy) ltac:(easy)
                                   ltac:(easy) ltac:(easy))
                 (st_dates _ _ _ _ _ _ _ _ S)).
      rewrite (fixes_run v_end_dt _ _ _ _
                 (extract_title_fixes v_end_dt _ ltac:(easy) ltac:(easy))
                 (st_title _ _ _ _ _ _ _ _ S)).
      reflexivity. }
  destruct D4 as [D4 E4].
  rewrite (fixes_run v_start_dt _ _ _ _ (clamp_fixes v_start_dt ltac:(easy))
             (st_clamp _ _ _ _ _ _ _ _ S)).
  rewrite (fixes_run v_end_dt _ _ _ _ (clamp_fixes v_end_dt ltac:(easy))
             (st_clamp _ _ _ _ _ _ _ _ S)).
  pose proof (st_end _ _ _ _ _ _ _ _ S) as D.
  destruct D4 as [E | (t & R & E)].
  - rewrite (default_end_empty v4 E) in D. inversion D; subst v5.
    left. rewrite E, E4. split; reflexivity.
  - rewrite (default_end_printed t v4 R E) in D. inversion D; subst v5.
    right. exists t. split; [exact R | ].
    split; [ | split; [now apply Date_parse_printed | ]].
    + destruct (t + twoHours <=? maxTime); cbn [v_start_dt set_end_dt];
        rewrite E; unfold or_undefined;
        now rewrite iso_of_time_nonempty.
    + destruct (t + twoHours <=? maxTime); cbn [v_end_dt set_end_dt].
      * unfold or_undefined. now rewrite iso_of_time_nonempty.
      * now rewrite E4.
Qed.

End ExtractorDates.

Section ExtractorLocation.
Import Regex Extractor ExtractorFacts ExtractorFrame LinesFacts.
Variable legacy : string -> option Z.

Lemma keeps_for_each_in {A} (P : vars -> Prop) (xs : list A)
      (body : A -> comp vars unit) :
  (forall x, In x xs -> keeps P (body x)) -> keeps P (for_each xs body).
Proof.
  induction xs as [ | x xs IH]; intros H; simpl.
  - apply keeps_ret.
  - apply keeps_bind; [apply H; now left | intros _].
    apply IH. intros y Hy. apply H. now right.
Qed.

(** The location is empty, or it is the trimmed first group of a match of
    one of the location patterns on one of the lines. *)
Definition located (lines : list chars) (v : vars) : Prop :=
  v_location v = [] \/
  exists line r mt g,
    In line lines /\ In r locationRegexes /\ exec r line = Some mt /\
    cap_get 1 (groups mt) = Some g /\ v_location v = trim g.

Lemma location_loop_located (lines : list chars) (line : chars)
      (rs : list regex) :
  In line lines -> incl rs locationRegexes ->
  keeps (located lines) (location_loop rs line).
Proof.
  intros Hl. induction rs as [ | r rs IH]; intros Hrs; simpl.
  - apply keeps_ret.
  - assert (Hr : In r locationRegexes) by (apply Hrs; now left).
    assert (Hrs' : incl rs locationRegexes)
      by (intros x Hx; apply Hrs; now right).
    apply keeps_bind; [apply keeps_get | intros v0].
    destruct (exec r line) as [mt | ] eqn:E; [ | now apply IH].
    destruct (negb (nonempty (v_location v0))); [ | now apply IH].
    destruct (cap_get 1 (groups mt)) as [g | ] eqn:G; [ | apply keeps_throw].
    intros v _. right. exists line, r, mt, g. repeat split; auto.
Qed.

Lemma location_of_stages (text : string) (v1 v2 v3 v4 v5 v6 : vars) :
  stages legacy text v1 v2 v3 v4 v5 v6 ->
  located (lines_of text) v6.
Proof.
  intros S.
  assert (L3 : located (lines_of text) v3).
  { apply (keeps_run (located (lines_of text)) _ _ _ _
             (keeps_for_each_in _ _ _
                (fun line Hl =>
                   location_loop_located (lines_of text) line _ Hl
                                         (incl_refl _)))
             (st_location _ _ _ _ _ _ _ _ S)).
    left.
    rewrite (fixes_run v_location _ _ _ _
               (scan_dates_fixes legacy v_location _ ltac:(easy) ltac:(easy)
                                 ltac:(easy) ltac:(easy))
               (st_dates _ _ _ _ _ _ _ _ S)).
    rewrite (fixes_run v_location _ _ _ _
               (extract_title_fixes v_location _ ltac:(easy) ltac:(easy))
               (st_title _ _ _ _ _ _ _ _ S)).
    reflexivity. }
  unfold located in *.
  rewrite (fixes_run v_location _ _ _ _ (clamp_fixes v_location ltac:(easy))
             (st_clamp _ _ _ _ _ _ _ _ S)).
  rewrite (fixes_run v_location _ _ _ _
             (default_end_fixes legacy v_location ltac:(easy))
             (st_end _ _ _ _ _ _ _ _ S)).
  rewrite (fixes_run v_location _ _ _ _
             (extract_notes_fixes v_location _ ltac:(easy) ltac:(easy))
             (st_notes _ _ _ _ _ _ _ _ S)).
  exact L3.
Qed.

(** X6. A location, when there is one, is the first group of a match of
    one of the four location patterns on one of the lines, with the white
    space at its ends removed; it is never empty.  When no pattern matches
    any line there is no location. *)
Theorem location_is_a_trimmed_match (text : string) :
  exists e,
    parseEventFromText legacy text = Normal e /\
    (forall s, location e = Some s ->
       exists line r mt g,
         In line (lines_of text) /\ In r locationRegexes /\
         exec r line = Some mt /\ cap_get 1 (groups mt) = Some g /\
         s = to_string (trim g) /\ trim g <> [] /\
         starts_clean (trim g) /\ starts_clean (rev (trim g))) /\
    ((forall line r, In line (lines_of text) -> In r locationRegexes ->
                     exec r line = None) ->
     location e = None).
Proof.
  destruct (body_stages legacy text) as (v1 & v2 & v3 & v4 & v5 & v6 & S).
  eexists. split; [apply (parse_of_stages legacy text _ _ _ _ _ _ S) | ].
  cbn [location]. pose proof (location_of_stages text _ _ _ _ _ _ S) as L.
  unfold or_undefined. split.
  - intros s Hs. destruct L as [E | (line & r & mt & g & H1 & H2 & H3 & H4 & E)].
    + rewrite E in Hs. simpl in Hs. discriminate.
    + rewrite E in Hs. exists line, r, mt, g.
      destruct (trim g) as [ | c t] eqn:T; [simpl in Hs; discriminate | ].
      simpl in Hs. inversion Hs as [Hs']. clear Hs. rewrite <- T.
      split; [exact H1 | ]. split; [exact H2 | ]. split; [exact H3 | ].
      split; [exact H4 | ]. split; [rewrite T; reflexivity | ].
      split; [rewrite T; discriminate | ].
      split; [apply trim_starts_clean | apply trim_ends_clean].
  - intros H. destruct L as [E | (line & r & mt & g & H1 & H2 & H3 & _)].
    + now rewrite E.
    + rewrite (H line r H1 H2) in H3. discriminate.
Qed.

End ExtractorLocation.

(* ================================================================== *)
(** * Every run of the commit handler *)

Module CommitRuns.
Import Commit CommitFacts.
Local Open Scope string_scope.

(** The draft with its flag cleared, as the update writes it. *)
Definition confirmed (d : draft_event) : draft_event :=
  {| id := id d; user_id := user_id d;
     source_message_id := source_message_id d;
     Store.title := Store.title d; Store.start_dt := Store.start_dt d;
     Store.end_dt := Store.end_dt d;
     Store.location := Store.location d; Store.notes := Store.notes d;
     Store.confidence := Store.confidence d;
     needs_confirmation := false;
     ocr_text := ocr_text d; created_at := created_at d |}.



(** The ways a run can end.  [Refused]: before anything but the draft
    query is sent.  [NoToken]: the credential step failed.  [NoPayload]:
    the payload could not be built.  [Rejected]: the calendar did not
    accept the event.  [Submitted]: the calendar accepted it. *)
Inductive outcome (legacy : string -> option Z) (E : env) (req : request)
          (w : world) : response -> world -> Prop :=
| Refused (msg : string) :
    outcome legacy E req w (Failure 500 msg) (queried req w)
| NoToken (d : draft_event) (e : exn) :
    selected E req (w_store w) = (Some d, None) ->
    fst (token_outcome E (userId req)) = Throw e ->
    outcome legacy E req w (Failure 500 (message e))
      {| w_store := w_store w;
         w_trace := (w_trace (queried req w) ++
                     snd (token_outcome E (userId req)))%list |}
| NoPayload (d : draft_event) (token : string) (e : exn) :
    selected E req (w_store w) = (Some d, None) ->
    fst (token_outcome E (userId req)) = Normal token ->
    buildGoogleEvent legacy d = Throw e ->
    outcome legacy E req w (Failure 500 (message e))
      {| w_store := w_store w;
         w_trace := (w_trace (queried req w) ++
                     snd (token_outcome E (userId req)))%list |}
| Rejected (d : draft_event) (token : string) (ev : GoogleCalendarEvent)
           (e : exn) :
    selected E req (w_store w) = (Some d, None) ->
    fst (token_outcome E (userId req)) = Normal token ->
    buildGoogleEvent legacy d = Normal ev ->
    calendar E = Throw e ->
    outcome legacy E req w (Failure 500 (message e))
      {| w_store := w_store w;
         w_trace := (w_trace (queried req w) ++
                     snd (token_outcome E (userId req)) ++
                     [CalendarPost token ev])%list |}
| Submitted (d : draft_event) (token : string) (ev : GoogleCalendarEvent)
            (resp : calendar_response) :
    selected E req (w_store w) = (Some d, None) ->
    absent (Store.start_dt d) = false ->
    fst (token_outcome E (userId req)) = Normal token ->
    buildGoogleEvent legacy d = Normal ev ->
    calendar E = Normal resp ->
    outcome legacy E req w (success_of d resp)
      {| w_store :=
           (if draft_update_ok E then mark_confirmed (id d) else fun s => s)
             ((if event_insert_ok E
               then add_event (event_row_of req d ev resp)
               else fun s => s) (w_store w));
         w_trace :=
           (w_trace w ++
            [DraftQuery (userId req) (draftEventId req)] ++
            snd (token_outcome E (userId req)) ++
            [CalendarPost token ev;
             EventInsert (event_row_of req d ev resp) (event_insert_ok E);
             DraftUpdate (id d) (draft_update_ok E)])%list |}.

(** Every run answers, and ends in one of the five ways. *)
Lemma handler_outcome legacy E req w :
  exists r w',
    handler legacy E req w = (Normal r, w') /\ outcome legacy E req w r w'.
Proof.
  destruct (selected E req (w_store w)) as [[d | ] [msg | ]] eqn:Sel.
  - eexists _, _. split; [ | apply Refused].
    unfold handler. rewrite main_unfold, Sel. reflexivity.
  - destruct (absent (Store.start_dt d)) eqn:Hs.
    + eexists _, _. split; [ | apply Refused].
      unfold handler. rewrite main_unfold, Sel, Hs. reflexivity.
    + destruct (fst (token_outcome E (userId req))) as [token | e] eqn:Tok.
      * destruct (buildGoogleEvent legacy d) as [ev | e] eqn:Ev.
        -- destruct (calendar E) as [resp | e] eqn:Cal.
           ++ eexists _, _. split; [ | now apply (Submitted _ _ _ _ d token ev resp)].
              now apply handler_after_submission.
           ++ eexists _, _. split; [ | now apply (Rejected _ _ _ _ d token ev e)].
              unfold handler. rewrite main_unfold, Sel, Hs.
              unfold bind at 1. rewrite getValidAccessToken_frame, Tok.
              unfold bind at 1, lift at 1. rewrite Ev.
              unfold createGoogleCalendarEvent, bind, emit, modify, lift.
              simpl. rewrite Cal. unfold queried. simpl.
              rewrite <- !app_assoc. reflexivity.
        -- eexists _, _. split; [ | now apply (NoPayload _ _ _ _ d token e)].
           unfold handler. rewrite main_unfold, Sel, Hs.
           unfold bind at 1. rewrite getValidAccessToken_frame, Tok.
           unfold bind at 1, lift at 1. rewrite Ev. reflexivity.
      * eexists _, _. split; [ | now apply (NoToken _ _ _ _ d e)].
        unfold handler. rewrite main_unfold, Sel, Hs.
        unfold bind at 1. rewrite getValidAccessToken_frame, Tok.
        reflexivity.
  - eexists _, _. split; [ | apply Refused].
    unfold handler. rewrite main_unfold, Sel. reflexivity.
  - eexists _, _. split; [ | apply Refused].
    unfold handler. rewrite main_unfold, Sel. reflexivity.
Qed.

End CommitRuns.

(* ================================================================== *)
(** * More about the commit handler *)

Module SelectionFacts.
Import Commit CommitFacts.

Lemma insert_desc_In (d x : draft_event) (l : list draft_event) :
  In x (insert_desc d l) <-> x = d \/ In x l.
Proof.
  induction l as [ | a l IH]; simpl.
  - intuition.
  - destruct (created_at a <? created_at d); simpl; [intuition | ].
    rewrite IH. intuition.
Qed.

Lemma order_desc_In (x : draft_event) (l : list draft_event) :
  In x (order_desc l) <-> In x l.
Proof.
  unfold order_desc. induction l as [ | a l IH]; simpl; [tauto | ].
  rewrite insert_desc_In, IH. intuition.
Qed.

Definition newest_first : list draft_event -> Prop :=
  StronglySorted (fun a b => created_at b <= created_at a).

Lemma insert_desc_sorted (d : draft_event) (l : list draft_event) :
  newest_first l -> newest_first (insert_desc d l).
Proof.
  unfold newest_first. induction 1 as [ | a l Hl IH Ha]; simpl.
  - constructor; constructor.
  - destruct (Z.ltb_spec (created_at a) (created_at d)) as [L | L].
    + constructor; [now constructor | ].
      constructor; [lia | ].
      rewrite Forall_forall in *. intros x Hx. specialize (Ha x Hx). lia.
    + constructor; [exact IH | ].
      rewrite Forall_forall in *. intros x Hx.
      apply insert_desc_In in Hx. destruct Hx as [-> | Hx]; [lia | auto].
Qed.

Lemma order_desc_sorted (l : list draft_event) : newest_first (order_desc l).
Proof.
  unfold order_desc. induction l as [ | a l IH]; simpl.
  - constructor.
  - now apply insert_desc_sorted.
Qed.

Lemma order_desc_length (l : list draft_event) :
  List.length (order_desc l) = List.length l.
Proof.
  unfold order_desc. induction l as [ | a l IH]; simpl; auto.
  rewrite <- IH. generalize (fold_right insert_desc [] l) as m.
  induction m as [ | b m IHm]; simpl; auto.
  destruct (created_at b <? created_at a); simpl; auto.
Qed.

End SelectionFacts.

Section CommitExtras.
Import Commit CommitFacts CommitRuns SelectionFacts.
Local Open Scope string_scope.
Local Open Scope Z_scope.
Variable legacy : string -> option Z.

(** X7. A commit that answers with an error has changed nothing in the
    store: no event row, no flag.  The status of every error is 500. *)
Theorem failed_commit_changes_nothing
  (E : env) (req : request) (w w' : world) (status : Z) (msg : string) :
  handler legacy E req w = (Normal (Failure status msg), w') ->
  w_store w' = w_store w /\ status = 500.
Proof.
  intros H. destruct (handler_outcome legacy E req w) as (r & w1 & H1 & O).
  rewrite H in H1. inversion H1; subst r w1; clear H1.
  inversion O; subst; try (split; reflexivity).
Qed.



Lemma eligible_selected
  (E : env) (req : request) (s : store) (d : draft_event) :
  absent (draftEventId req) = true ->
  selected E req s = (Some d, None) ->
  In d (draft_events s) /\ user_id d = userId req /\
  needs_confirmation d = false /\
  forall d', In d' (draft_events s) -> user_id d' = userId req ->
             needs_confirmation d' = false ->
             created_at d' <= created_at d.
Proof.
  intros Hid Hsel. unfold selected, maybeSingle, draftQuery in Hsel.
  rewrite Hid in Hsel.
  destruct (draft_query_error E); [discriminate | ].
  set (elig := filter (fun d => negb (needs_confirmation d))
                 (filter (fun d => String.eqb (user_id d) (userId req))
                         (draft_events s))) in *.
  pose proof (order_desc_sorted elig) as Srt.
  assert (Mem : forall x, In x (order_desc elig) <->
                          In x (draft_events s) /\ user_id x = userId req /\
                          needs_confirmation x = false).
  { intros x. rewrite order_desc_In. unfold elig.
    rewrite !filter_In, negb_true_iff, String.eqb_eq. tauto. }
  destruct (order_desc elig) as [ | a rest]; [discriminate | ].
  simpl in Hsel. inversion Hsel; subst a.
  destruct (proj1 (Mem d) (or_introl eq_refl)) as (M1 & M2 & M3).
  repeat split; auto.
  intros d' H1 H2 H3.
  assert (I : In d' (d :: rest)) by (apply Mem; auto).
  destruct I as [-> | I]; [lia | ].
  inversion Srt as [ | a l Hl Ha]; subst.
  rewrite Forall_forall in Ha. now apply Ha.
Qed.

(** X9. Without a draft id the handler takes, among the drafts of the
    user that have [needs_confirmation = false], one that was created
    last. *)
Theorem latest_eligible_draft_is_selected
  (E : env) (req : request) (s : store) (d : draft_event) :
  absent (draftEventId req) = true ->
  selected E req s = (Some d, None) ->
  In d (draft_events s) /\ user_id d = userId req /\
  needs_confirmation d = false /\
  forall d', In d' (draft_events s) -> user_id d' = userId req ->
             needs_confirmation d' = false ->
             created_at d' <= created_at d.
Proof. apply eligible_selected. Qed.

Definition flyer_draft : draft_event :=
  {| id := "d2"; user_id := "u1"; source_message_id := "m2";
     Store.title := Some "Flyer";
     Store.start_dt := Some "2024-10-01T18:00:00Z";
     Store.end_dt := None; Store.location := None; Store.notes := None;
     Store.confidence := 0.9%float; needs_confirmation := false;
     ocr_text := "Flyer"; created_at := 5 |}.

Definition two_drafts : store :=
  {| draft_events := [party; flyer_draft]; events := [];
     processed_messages := [] |}.

Lemma latest_eligible_draft_is_selected_witness :
  In flyer_draft (draft_events two_drafts) /\
  user_id flyer_draft = "u1"%string /\
  needs_confirmation flyer_draft = false /\
  forall d', In d' (draft_events two_drafts) -> user_id d' = "u1"%string ->
             needs_confirmation d' = false ->
             created_at d' <= created_at flyer_draft.
Proof.
  apply (latest_eligible_draft_is_selected
           (answering one_date true true) (latest_of "u1") two_drafts
           flyer_draft); reflexivity.
Defined.

End CommitExtras.

Section CommitExtras2.
Import Commit CommitFacts CommitRuns SelectionFacts.
Local Open Scope string_scope.
Local Open Scope Z_scope.
Variable legacy : string -> option Z.

Lemma filter_map_same {A} (p : A -> bool) (g : A -> A) (l : list A) :
  (forall x, p (g x) = p x) -> filter p (map g l) = map g (filter p l).
Proof.
  intros H. induction l as [ | a l IH]; simpl; auto.
  rewrite H. destruct (p a); simpl; now rewrite IH.
Qed.

(** With an explicit id, the draft is selected again after its flag has
    been cleared and an event has been recorded. *)
Lemma selected_after_commit (E : env) (req : request) (s : store)
      (d : draft_event) (did : string) (row : event_row) :
  draftEventId req = Some did -> truthy did = true ->
  selected E req s = (Some d, None) ->
  selected E req (mark_confirmed (id d) (add_event row s)) =
    (Some (confirmed d), None).
Proof.
  intros Hid Ht Hsel. unfold selected, maybeSingle, draftQuery in *.
  rewrite Hid in *. simpl in *. rewrite Ht in *. simpl in *.
  destruct (draft_query_error E); [discriminate | ].
  set (g := fun d0 : draft_event =>
              if String.eqb (id d0) (id d) then
                {| id := id d0; user_id := user_id d0;
                   source_message_id := source_message_id d0;
                   Store.title := Store.title d0;
                   Store.start_dt := Store.start_dt d0;
                   Store.end_dt := Store.end_dt d0;
                   Store.location := Store.location d0;
                   Store.notes := Store.notes d0;
                   Store.confidence := Store.confidence d0;
                   needs_confirmation := false;
                   ocr_text := ocr_text d0; created_at := created_at d0 |}
              else d0).
  rewrite (filter_map_same (fun d0 => String.eqb (user_id d0) (userId req)) g)
    by (intros x; unfold g; destruct (String.eqb (id x) (id d)); reflexivity).
  rewrite (filter_map_same (fun d0 => String.eqb (id d0) did) g)
    by (intros x; unfold g; destruct (String.eqb (id x) (id d)); reflexivity).
  destruct (filter (fun d0 => String.eqb (id d0) did)
              (filter (fun d0 => String.eqb (user_id d0) (userId req))
                      (draft_events s))) as [ | a [ | b l]];
    try discriminate.
  inversion Hsel; subst a. simpl. unfold g. rewrite String.eqb_refl.
  reflexivity.
Qed.

Definition is_calendar_post (e : effect) : bool :=
  match e with CalendarPost _ _ => true | _ => false end.

Lemma token_outcome_posts_nothing (E : env) (u : string) :
  filter is_calendar_post (snd (token_outcome E u)) = [].
Proof.
  unfold token_outcome, getValidAccessToken.
  unfold bind, emit, modify, throw, ret. simpl.
  destruct (user_row E) as [[[tok | ] rt] | ]; simpl; auto.
  destruct (truthy tok); simpl; auto.
  destruct ((probe_status E =? 401) && negb (absent rt)); simpl.
  - destruct (refresh E); reflexivity.
  - destruct (negb ((200 <=? probe_status E) && (probe_status E <=? 299)));
      reflexivity.
Qed.

(** X10. Nothing guards against committing a draft twice.  When a
    commit by explicit id has gone through, the same request goes through
    again: the draft is selected whatever its flag, the event is submitted
    to the calendar a second time, and [events] holds two rows for the
    one draft. *)
Theorem same_draft_is_committed_twice
  (E : env) (req : request) (w : world) (d : draft_event) (did token : string)
  (ev : GoogleCalendarEvent) (resp : calendar_response) :
  draftEventId req = Some did -> truthy did = true ->
  selected E req (w_store w) = (Some d, None) ->
  absent (Store.start_dt d) = false ->
  fst (token_outcome E (userId req)) = Normal token ->
  buildGoogleEvent legacy d = Normal ev ->
  calendar E = Normal resp ->
  event_insert_ok E = true -> draft_update_ok E = true ->
  let first := handler legacy E req w in
  let second := handler legacy E req (snd first) in
  fst first = Normal (success_of d resp) /\
  fst second = Normal (success_of d resp) /\
  events (w_store (snd second)) =
    (events (w_store w) ++
     [event_row_of req d ev resp; event_row_of req d ev resp])%list /\
  List.length (filter is_calendar_post (w_trace (snd second))) =
    (List.length (filter is_calendar_post (w_trace w)) + 2)%nat.
Proof.
  intros Hid Ht Hsel Hs Htok Hev Hcal Hins Hupd. cbv zeta.
  rewrite (handler_after_submission legacy E req w d token ev resp)
    by assumption.
  rewrite Hins, Hupd. cbn [fst snd].
  rewrite (handler_after_submission legacy E req _ (confirmed d) token ev resp);
    cbn [w_store]; auto.
  - rewrite Hins, Hupd. cbn [fst snd w_store w_trace].
    split; [reflexivity | ]. split; [reflexivity | ].
    split.
    + cbn. rewrite <- app_assoc. reflexivity.
    + rewrite !filter_app, !token_outcome_posts_nothing. cbn.
      rewrite !length_app. cbn. lia.
  - now apply (selected_after_commit E req (w_store w) d did).
Qed.



End CommitExtras2.

Section CommitWitnesses.
Import Commit.
Local Open Scope string_scope.

Lemma failed_commit_changes_nothing_witness :
  w_store (snd (Commit.handler strict_engine (answering one_date true true)
                        (draft_of "u2" "d1") (fresh party_store))) =
  party_store.
Proof.
  apply (failed_commit_changes_nothing strict_engine
           (answering one_date true true) (draft_of "u2" "d1")
           (fresh party_store) _ 500 "No draft event found").
  reflexivity.
Defined.

Lemma same_draft_is_committed_twice_witness :
  List.length
    (events (w_store
       (snd (Commit.handler strict_engine (answering one_date true true)
               (draft_of "u1" "d1")
               (snd (Commit.handler strict_engine (answering one_date true true)
                       (draft_of "u1" "d1") (fresh party_store))))))) = 2%nat.
Proof.
  pose proof (same_draft_is_committed_twice strict_engine
                (answering one_date true true) (draft_of "u1" "d1")
                (fresh party_store) party "d1"%string "token"%string
                {| summary := "Party";
                   description := ("Created from Instagram DM" ++ nl ++ nl)%string;
                   start := {| dateTime := Some "2024-09-15T19:00:00Z";
                               timeZone := "UTC" |};
                   end_ := {| dateTime := Some "2024-09-15T21:00:00.000Z";
                              timeZone := "UTC" |};
                   g_location := None;
                   reminders_useDefault := true |}
                {| cr_id := "g1"; htmlLink := "https://calendar/g1" |}
                eq_refl eq_refl eq_refl eq_refl eq_refl eq_refl eq_refl
                eq_refl eq_refl) as H.
  cbv zeta in H. destruct H as (_ & _ & H & _). rewrite H. reflexivity.
Defined.


End CommitWitnesses.


Section CredentialExtras.
Import Commit CommitFacts CommitRuns.
Local Open Scope string_scope.
Local Open Scope Z_scope.


End CredentialExtras.

Section CredentialWitnesses.
Import Commit.
Local Open Scope string_scope.


End CredentialWitnesses.

Section PayloadExtras.
Import Commit CommitFacts CommitRuns.
Local Open Scope string_scope.
Local Open Scope Z_scope.
Variable legacy : string -> option Z.

(** X13. For a draft that has an end, [buildGoogleEvent] never throws and
    reads neither date: start and end go into the payload as stored, both
    in zone UTC.  The summary is the title or, without one, the fixed text,
    and is never empty; the location is in the payload exactly when the
    draft has a non-empty one. *)
Theorem payload_of_draft_with_end (d : draft_event) :
  absent (Store.end_dt d) = false ->
  exists ev,
    buildGoogleEvent legacy d = Normal ev /\
    dateTime (start ev) = Store.start_dt d /\
    dateTime (end_ ev) = Store.end_dt d /\
    timeZone (start ev) = "UTC" /\ timeZone (end_ ev) = "UTC" /\
    summary ev = or_else (Store.title d) "Event from Instagram" /\
    truthy (summary ev) = true /\
    absent (g_location ev) = absent (Store.location d) /\
    (absent (Store.location d) = false -> g_location ev = Store.location d) /\
    (absent (Store.location d) = true -> g_location ev = None).
Proof.
  intros H. unfold buildGoogleEvent. rewrite H.
  eexists. split; [reflexivity | ]. cbn.
  repeat split; auto.
  - unfold absent, or_else in *.
    destruct (Store.end_dt d) as [x | ]; [ | discriminate].
    destruct (truthy x); [reflexivity | discriminate].
  - unfold or_else. destruct (Store.title d) as [t | ]; auto.
    destruct (truthy t) eqn:T; auto.
  - destruct (absent (Store.location d)) eqn:A; auto.
  - intros L. now rewrite L.
  - intros L. now rewrite L.
Qed.

(** X14. A draft without an end whose start is not a date is not
    submitted: the payload cannot be built, the handler answers with the
    range error, nothing is sent to the calendar's event endpoint and the
    store is unchanged.  The credential step has already run by then. *)
Theorem unparseable_start_is_not_submitted
  (E : env) (req : request) (w : world) (d : draft_event) (s token : string) :
  selected E req (w_store w) = (Some d, None) ->
  Store.start_dt d = Some s -> truthy s = true ->
  absent (Store.end_dt d) = true ->
  Date_of_string legacy s = None ->
  fst (token_outcome E (userId req)) = Normal token ->
  handler legacy E req w =
    (Normal (Failure 500 "Invalid time value"),
     {| w_store := w_store w;
        w_trace := (w_trace w ++
                    [DraftQuery (userId req) (draftEventId req)] ++
                    snd (token_outcome E (userId req)))%list |}) /\
  filter is_calendar_post (snd (token_outcome E (userId req))) = [].
Proof.
  intros Hsel Hs Ht Hend Hdate Htok.
  split; [ | apply token_outcome_posts_nothing].
  assert (B : buildGoogleEvent legacy d =
              Throw (RangeError "Invalid time value")).
  { unfold buildGoogleEvent, default_end_of, new_Date_nullable.
    rewrite Hend, Hs, Hdate. reflexivity. }
  unfold handler. rewrite main_unfold, Hsel.
  unfold absent at 1. rewrite Hs, Ht. cbn [negb].
  unfold bind at 1. rewrite getValidAccessToken_frame, Htok.
  unfold bind at 1, lift at 1. rewrite B. cbn.
  now rewrite <- app_assoc.
Qed.

End PayloadExtras.

Section PayloadWitnesses.
Import Commit CommitFacts.
Local Open Scope string_scope.

Definition picnic : draft_event :=
  {| id := "d3"; user_id := "u1"; source_message_id := "m3";
     Store.title := None;
     Store.start_dt := Some "next friday";
     Store.end_dt := Some "2024-10-01T20:00:00+00:00";
     Store.location := Some "Hall"; Store.notes := None;
     Store.confidence := 0.6%float; needs_confirmation := true;
     ocr_text := "Picnic"; created_at := 7 |}.

Lemma payload_of_draft_with_end_witness :
  exists ev,
    buildGoogleEvent strict_engine picnic = Normal ev /\
    dateTime (start ev) = Some "next friday" /\
    dateTime (end_ ev) = Some "2024-10-01T20:00:00+00:00" /\
    timeZone (start ev) = "UTC" /\ timeZone (end_ ev) = "UTC" /\
    summary ev = "Event from Instagram" /\
    truthy (summary ev) = true /\
    absent (g_location ev) = false /\
    (absent (Store.location picnic) = false ->
     g_location ev = Some "Hall") /\
    (absent (Store.location picnic) = true -> g_location ev = None).
Proof.
  apply (payload_of_draft_with_end strict_engine picnic). reflexivity.
Defined.

Definition someday : draft_event :=
  {| id := "d4"; user_id := "u1"; source_message_id := "m4";
     Store.title := Some "Picnic";
     Store.start_dt := Some "next friday";
     Store.end_dt := None;
     Store.location := None; Store.notes := None;
     Store.confidence := 0.6%float; needs_confirmation := true;
     ocr_text := "Picnic"; created_at := 8 |}.

Definition someday_store : store :=
  {| draft_events := [someday]; events := []; processed_messages := [] |}.

Lemma unparseable_start_is_not_submitted_witness :
  fst (handler strict_engine (answering one_date true true)
               (draft_of "u1" "d4") (fresh someday_store)) =
  Normal (Failure 500 "Invalid time value").
Proof.
  rewrite (proj1 (unparseable_start_is_not_submitted strict_engine
                    (answering one_date true true) (draft_of "u1" "d4")
                    (fresh someday_store) someday "next friday" "token"
                    eq_refl eq_refl eq_refl eq_refl eq_refl eq_refl)).
  reflexivity.
Defined.

End PayloadWitnesses.

(* ================================================================== *)
(** * Every run of the ingestion handler *)

Section IngestExtras.
Import Ingest CommitFacts CommitRuns.
Local Open Scope string_scope.
Local Open Scope Z_scope.
Variable legacy : string -> option Z.

(** The row that [createDraftEvent] inserts. *)
Definition draft_row_of (req : request) (e : Extractor.EventData)
           (ocrText new_id : string) (now : Z) : draft_event :=
  {| id := new_id; user_id := userId req;
     source_message_id := messageId req;
     Store.title := Extractor.title e;
     Store.start_dt := Extractor.start_dt e;
     Store.end_dt := Extractor.end_dt e;
     Store.location := Extractor.location e;
     Store.notes := Extractor.notes e;
     Store.confidence := Extractor.confidence e;
     needs_confirmation := needs_confirmation_of e;
     ocr_text := ocrText; created_at := now |}.

Lemma extractor_returns (text : string) :
  exists e,
    Extractor.parseEventFromText legacy text = Normal e /\
    (0 <=? Extractor.confidence e)%float = true /\
    (Extractor.confidence e <=? 1)%float = true.
Proof.
  destruct (ExtractorFacts.body_hoare legacy text Extractor.init
              ExtractorFacts.inv_init) as (a & v & E & H0 & H1).
  unfold Extractor.parseEventFromText. rewrite E.
  eexists. split; [reflexivity | ]. simpl. auto.
Qed.

(** X15. When the OCR step fails the handler answers 500 with its
    message and has done nothing else: no draft, no processed mark, no
    invocation. *)
Theorem ocr_failure_leaves_no_trace
  (E : env) (req : request) (w : world) (e : exn) :
  ocr E = Throw e ->
  handler legacy E req w =
    (Normal (Failure 500 (Commit.message e)),
     {| w_store := w_store w;
        w_trace := (w_trace w ++ [OcrFetch (mediaUrl req)])%list |}).
Proof.
  intros H. unfold handler, main, performOCR, bind, emit, modify, lift.
  simpl. rewrite H. reflexivity.
Qed.

(** X16. When the insert of the draft fails the handler answers 500 with
    the error of the store; the message is not marked processed and the
    commit function is not invoked. *)
Theorem insert_failure_stops_the_pipeline
  (E : env) (req : request) (w : world) (text : string) (err : exn) :
  ocr E = Normal text -> draft_insert E = Throw err ->
  exists e,
    Extractor.parseEventFromText legacy text = Normal e /\
    handler legacy E req w =
      (Normal (Failure 500 (Commit.message err)),
       {| w_store := w_store w;
          w_trace := (w_trace w ++
                      [OcrFetch (mediaUrl req);
                       DraftInsert (draft_row_of req e text EmptyString 0)
                                   false])%list |}).
Proof.
  intros Ho Hi. destruct (extractor_returns text) as (e & He & _).
  exists e. split; [exact He | ].
  unfold handler, main, performOCR, createDraftEvent, bind, emit, modify,
    lift, throw. simpl. rewrite Ho, He, Hi. simpl.
  rewrite <- app_assoc. reflexivity.
Qed.

Lemma commit_handler_answers (E : env) (r : Commit.request) (w : world) :
  exists a, fst (Commit.handler legacy E r w) = Normal a.
Proof.
  unfold Commit.handler.
  destruct (Commit.main legacy E r w) as [[a | x] w']; simpl; eauto.
Qed.



End IngestExtras.

Section IngestWitnesses.
Import Ingest.
Local Open Scope string_scope.

Definition ocr_down : env :=
  {| ocr := Throw (Error "Failed to download image: 404");
     draft_insert := Normal ("d2", 2%Z);
     message_update_ok := true;
     draft_query_error := None;
     user_row := None;
     probe_status := 200;
     refresh := Throw (Error "no refresh token");
     calendar := Throw (Error "unreachable");
     event_insert_ok := true;
     draft_update_ok := true |}.

Lemma ocr_failure_leaves_no_trace_witness :
  handler strict_engine ocr_down flyer (fresh party_store) =
    (Normal (Failure 500 "Failed to download image: 404"),
     {| w_store := party_store;
        w_trace := [OcrFetch "https://cdn/flyer.jpg"] |}).
Proof.
  apply (ocr_failure_leaves_no_trace strict_engine ocr_down flyer
           (fresh party_store) (Error "Failed to download image: 404")).
  reflexivity.
Defined.

Definition store_down : env :=
  {| ocr := Normal one_date;
     draft_insert := Throw (Error "insert refused");
     message_update_ok := true;
     draft_query_error := None;
     user_row := None;
     probe_status := 200;
     refresh := Throw (Error "no refresh token");
     calendar := Throw (Error "unreachable");
     event_insert_ok := true;
     draft_update_ok := true |}.

Lemma insert_failure_stops_the_pipeline_witness :
  exists e,
    Extractor.parseEventFromText strict_engine one_date = Normal e /\
    handler strict_engine store_down flyer (fresh party_store) =
      (Normal (Failure 500 "insert refused"),
       {| w_store := party_store;
          w_trace := [OcrFetch "https://cdn/flyer.jpg";
                      DraftInsert (draft_row_of flyer e one_date EmptyString 0)
                                  false] |}).
Proof.
  apply (insert_failure_stops_the_pipeline strict_engine store_down flyer
           (fresh party_store) one_date (Error "insert refused"));
    reflexivity.
Defined.


End IngestWitnesses.

(* ================================================================== *)
(** * The URL pattern of the webhook *)

Module UrlFacts.
Import JSString Regex Webhook.
Local Open Scope string_scope.
Local Open Scope list_scope.



Fixpoint take_while (p : ascii -> bool) (s : chars) : chars :=
  match s with
  | a :: s' => if p a then a :: take_while p s' else []
  | [] => []
  end.

Fixpoint drop_while (p : ascii -> bool) (s : chars) : chars :=
  match s with
  | a :: s' => if p a then drop_while p s' else s
  | [] => []
  end.


Lemma take_while_Forall p s : Forall (fun a => p a = true) (take_while p s).
Proof.
  induction s as [ | a s IH]; simpl; auto.
  destruct (p a) eqn:E; auto.
Qed.

Lemma drop_while_stops p s :
  match drop_while p s with
  | [] => True
  | a :: _ => p a = false
  end.
Proof.
  induction s as [ | a s IH]; simpl; auto.
  destruct (p a) eqn:E; auto.
Qed.

Lemma drop_while_app p (t rest : chars) :
  forallb p t = true ->
  match rest with [] => true | c :: _ => negb (p c) end = true ->
  drop_while p (t ++ rest)%list = rest.
Proof.
  intros Ht Hr. induction t as [ | a t IH]; simpl in *.
  - destruct rest as [ | c rest]; simpl; auto.
    apply negb_true_iff in Hr. now rewrite Hr.
  - apply andb_true_iff in Ht. destruct Ht as [Ha Ht]. rewrite Ha. auto.
Qed.

Lemma drop_while_length p s :
  (List.length (drop_while p s) <= List.length s)%nat.
Proof.
  induction s as [ | a s IH]; simpl; auto.
  destruct (p a); simpl; lia.
Qed.



Lemma skipn_prefix (p s : chars) : skipn (List.length p) (p ++ s) = s.
Proof. induction p; simpl; auto. Qed.


Section Matching.
Context {R : Type}.


Section Greedy.
Variable p : ascii -> bool.
Variable k : chars -> caps -> option R.




End Greedy.


End Matching.









End UrlFacts.

(* ================================================================== *)
(** * The webhook: what a message leads to *)

Section WebhookExtras.
Import JSString Regex Webhook UrlFacts.
Local Open Scope string_scope.
Local Open Scope list_scope.

Lemma to_string_truthy (a : ascii) (l : chars) : truthy (to_string (a :: l)) = true.
Proof. reflexivity. Qed.






Lemma remove_first_prefix (p s : chars) : remove_first p (p ++ s) = s.
Proof.
  assert (E : forall l, remove_first p l =
                        if starts_with p l then skipn (List.length p) l
                        else match l with
                             | [] => []
                             | c :: l' => c :: remove_first p l'
                             end)
    by (intros l; destruct l; reflexivity).
  rewrite E, DateFacts.starts_with_app. apply skipn_prefix.
Qed.

(** X20. The date of a [CONFIRM_DATE:] reply is passed on as it stands:
    only the leading marker is removed. *)
Theorem confirm_date_value_is_the_rest (userId d : string) :
  handleQuickReply userId ("CONFIRM_DATE:" ++ d)%string =
    [UpdateDraftEvent userId "confirm_date" (Some d)].
Proof.
  unfold handleQuickReply.
  change (of_string ("CONFIRM_DATE:" ++ d)%string)
    with (of_string "CONFIRM_DATE:" ++ of_string d).
  rewrite DateFacts.starts_with_app, remove_first_prefix.
  unfold to_string, of_string. now rewrite string_of_list_ascii_of_string.
Qed.

End WebhookExtras.

Section WebhookWitnesses.
Import JSString Webhook UrlFacts.
Local Open Scope string_scope.



End WebhookWitnesses.

(* ================================================================== *)
(** * From a flagged draft to the SAVE reply *)

Section SaveExtras.
Import Webhook CommitFacts CommitRuns.
Local Open Scope string_scope.
Local Open Scope list_scope.
Variable legacy : string -> option Z.

(** A commit that names no draft leaves the store alone when every draft
    of the user is flagged. *)
Lemma commit_without_eligible_draft (E : env) (r : Commit.request) (w : world) :
  absent (Commit.draftEventId r) = true ->
  (forall d, In d (draft_events (w_store w)) ->
             user_id d = Commit.userId r -> needs_confirmation d = true) ->
  w_store (snd (Commit.handler legacy E r w)) = w_store w.
Proof.
  intros Hid Hall.
  destruct (handler_outcome legacy E r w) as (a & w' & H & O).
  rewrite H. cbn [snd].
  assert (No : forall d, selected E r (w_store w) <> (Some d, None)).
  { intros d Sel.
    destruct (eligible_selected E r (w_store w) d Hid Sel)
      as (Hin & Hu & Hn & _).
    rewrite (Hall d Hin Hu) in Hn. discriminate. }
  inversion O; subst; try reflexivity;
    match goal with
    | Sel : selected _ _ _ = (Some ?d, None) |- _ => destruct (No d Sel)
    end.
Qed.

(** X21. A draft that was stored as needing confirmation cannot be saved
    with the SAVE reply while the user has no unflagged draft: the reply
    asks for a commit without naming a draft, the commit looks at unflagged
    drafts only, and so it answers that no draft was found. *)
Theorem save_reply_finds_no_flagged_draft
  (E1 E2 : env) (req : Ingest.request) (w : world) (text new_id : string)
  (now : Z) (e : Extractor.EventData) :
  ocr E1 = Normal text -> draft_insert E1 = Normal (new_id, now) ->
  Extractor.parseEventFromText legacy text = Normal e ->
  Ingest.needs_confirmation_of e = true ->
  (forall d, In d (draft_events (w_store w)) ->
             user_id d = Ingest.userId req -> needs_confirmation d = true) ->
  draft_query_error E2 = None ->
  exists r,
    handleQuickReply (Ingest.userId req) "SAVE" = [CreateCalendarEvent r] /\
    draft_events (w_store (snd (Ingest.handler legacy E1 req w))) =
      draft_events (w_store w) ++ [draft_row_of req e text new_id now] /\
    Commit.handler legacy E2 r (snd (Ingest.handler legacy E1 req w)) =
      (Normal (Commit.Failure 500 "No draft event found"),
       queried r (snd (Ingest.handler legacy E1 req w))).
Proof.
  intros Ho Hi He Hn Hall HE.
  exists {| Commit.userId := Ingest.userId req; Commit.draftEventId := None |}.
  split; [reflexivity | ].
  assert (Flagged : forall l,
             l = draft_events (w_store w) ++ [draft_row_of req e text new_id now] ->
             forall d, In d l -> user_id d = Ingest.userId req ->
                       needs_confirmation d = true).
  { intros l -> d Hin Hu. apply in_app_or in Hin.
    destruct Hin as [Hin | [<- | []]]; [auto | exact Hn]. }
  assert (D : draft_events (w_store (snd (Ingest.handler legacy E1 req w))) =
              draft_events (w_store w) ++ [draft_row_of req e text new_id now]).
  { unfold Ingest.handler, Ingest.main, Ingest.performOCR,
      Ingest.createDraftEvent, Comp.bind, emit, Comp.modify, Comp.lift,
      update_store, Comp.when, Comp.ret.
    simpl. rewrite Ho, He, Hi. simpl.
    fold (draft_row_of req e text new_id now).
    unfold Ingest.sendQuickReplies, Ingest.invoke_create_calendar_event.
    destruct (Ingest.quick_reply_of e);
      try (destruct (message_update_ok E1); reflexivity).
    unfold Comp.bind, emit, Comp.modify, Comp.ret.
    destruct (message_update_ok E1); simpl;
      match goal with
      | |- context [Commit.handler legacy E1 ?r ?w0] =>
          pose proof (commit_without_eligible_draft E1 r w0 eq_refl) as F;
          destruct (commit_handler_answers legacy E1 r w0) as (a & Ha);
          destruct (Commit.handler legacy E1 r w0) as [[r0 | x0] w1]
      end; simpl in *; try discriminate;
      rewrite F; auto; intros d; apply Flagged; reflexivity. }
  split; [exact D | ].
  apply handler_no_draft, no_eligible_draft; auto.
  intros d. rewrite D. apply Flagged. reflexivity.
Qed.

End SaveExtras.

Section SaveWitnesses.
Import Webhook CommitFacts.
Local Open Scope string_scope.

Definition dated_flyer : Extractor.EventData :=
  {| Extractor.title := None;
     Extractor.start_dt := Some "2024-09-15T19:00:00.000Z";
     Extractor.end_dt := Some "2024-09-15T21:00:00.000Z";
     Extractor.location := None;
     Extractor.notes := None;
     Extractor.confidence := 0.8%float |}.

Lemma save_reply_finds_no_flagged_draft_witness :
  exists r,
    handleQuickReply (Ingest.userId flyer) "SAVE" = [CreateCalendarEvent r] /\
    draft_events (w_store (snd (Ingest.handler strict_engine
                                  (answering one_date true true) flyer
                                  (fresh empty_store)))) =
      (draft_events (w_store (fresh empty_store)) ++
       [draft_row_of flyer dated_flyer one_date "d2" 2])%list /\
    Commit.handler strict_engine (answering one_date true true) r
      (snd (Ingest.handler strict_engine (answering one_date true true) flyer
              (fresh empty_store))) =
      (Normal (Commit.Failure 500 "No draft event found"),
       queried r (snd (Ingest.handler strict_engine
                         (answering one_date true true) flyer
                         (fresh empty_store)))).
Proof.
  apply (save_reply_finds_no_flagged_draft strict_engine
           (answering one_date true true) (answering one_date true true)
           flyer (fresh empty_store) one_date "d2" 2%Z dated_flyer);
    try reflexivity.
  intros d [].
Defined.

End SaveWitnesses.

(* ================================================================== *)
(** * From a confident flyer to the calendar *)

Section HappyPath.
Import Ingest CommitFacts CommitRuns SelectionFacts.
Local Open Scope string_scope.
Local Open Scope Z_scope.
Variable legacy : string -> option Z.

(** The draft that was appended last is the one a commit without an id
    takes, when it is unflagged and every other unflagged draft of the user
    is older. *)
Lemma appended_draft_is_selected
  (E : env) (r : Commit.request) (s : store) (old : list draft_event)
  (row : draft_event) :
  draft_query_error E = None ->
  absent (Commit.draftEventId r) = true ->
  draft_events s = (old ++ [row])%list ->
  user_id row = Commit.userId r -> needs_confirmation row = false ->
  (forall d, In d old -> user_id d = Commit.userId r ->
             needs_confirmation d = false -> created_at d < created_at row) ->
  selected E r s = (Some row, None).
Proof.
  intros HE Hid Hs Hu Hn Hold.
  assert (Ex : exists a, selected E r s = (Some a, None)).
  { unfold selected, Commit.maybeSingle, Commit.draftQuery.
    rewrite HE, Hid.
    set (elig := filter (fun d => negb (needs_confirmation d))
                   (filter (fun d => String.eqb (user_id d) (Commit.userId r))
                           (draft_events s))).
    assert (Hin : In row (Commit.order_desc elig)).
    { apply order_desc_In. unfold elig.
      rewrite !filter_In, negb_true_iff, String.eqb_eq, Hs.
      repeat split; auto. apply in_or_app. right. now left. }
    destruct (Commit.order_desc elig) as [ | a rest]; [destruct Hin | ].
    exists a. reflexivity. }
  destruct Ex as (a & Sel). rewrite Sel.
  destruct (eligible_selected E r s a Hid Sel) as (Hin & Hua & Hna & Hmax).
  rewrite Hs in Hin, Hmax. apply in_app_or in Hin.
  destruct Hin as [Hin | [<- | []]]; [ | reflexivity].
  pose proof (Hold a Hin Hua Hna).
  assert (created_at row <= created_at a).
  { apply Hmax; auto. apply in_or_app. right. now left. }
  lia.
Qed.

(** X22. The way of a confident flyer: when the extracted event needs no
    confirmation and has an end, every collaborator answers, and the
    user's other unflagged drafts are older, the handler stores the draft,
    the commit it triggers selects that very draft, and one row is added to
    [events] whose payload carries the extracted start and end. *)
Theorem confident_flyer_reaches_the_calendar
  (E : env) (req : request) (w : world) (text new_id : string) (now : Z)
  (e : Extractor.EventData) (token : string) (resp : calendar_response) :
  ocr E = Normal text -> draft_insert E = Normal (new_id, now) ->
  Extractor.parseEventFromText legacy text = Normal e ->
  needs_confirmation_of e = false ->
  absent (Extractor.end_dt e) = false ->
  draft_query_error E = None ->
  (forall d, In d (draft_events (w_store w)) -> user_id d = userId req ->
             needs_confirmation d = false -> created_at d < now) ->
  fst (token_outcome E (userId req)) = Normal token ->
  calendar E = Normal resp ->
  event_insert_ok E = true ->
  exists ev,
    Commit.buildGoogleEvent legacy (draft_row_of req e text new_id now) =
      Normal ev /\
    dateTime (start ev) = Extractor.start_dt e /\
    dateTime (end_ ev) = Extractor.end_dt e /\
    fst (handler legacy E req w) =
      Normal (Success new_id (Extractor.confidence e)) /\
    events (w_store (snd (handler legacy E req w))) =
      (events (w_store w) ++
       [{| e_user_id := userId req;
           draft_event_id := new_id;
           google_event_id := cr_id resp;
           calendar_id := "primary";
           request_payload := ev;
           response_payload := resp |}])%list.
Proof.
  intros Ho Hi He Hn Hend HE Hold Htok Hcal Hins.
  set (row := draft_row_of req e text new_id now).
  assert (Hstart : absent (Store.start_dt row) = false).
  { unfold needs_confirmation_of in Hn.
    apply orb_false_iff in Hn. destruct Hn as [Hn _].
    apply orb_false_iff in Hn. apply Hn. }
  assert (B : exists ev,
             Commit.buildGoogleEvent legacy row = Normal ev /\
             dateTime (start ev) = Extractor.start_dt e /\
             dateTime (end_ ev) = Extractor.end_dt e).
  { unfold Commit.buildGoogleEvent. cbn [row draft_row_of Store.end_dt].
    rewrite Hend. eexists. split; [reflexivity | ]. cbn.
    split; [reflexivity | ].
    unfold absent, or_else in *.
    destruct (Extractor.end_dt e) as [x | ]; [ | discriminate].
    destruct (truthy x); [reflexivity | discriminate]. }
  destruct B as (ev & Hev & Hs & Hen).
  exists ev. split; [exact Hev | ]. split; [exact Hs | ]. split; [exact Hen | ].
  unfold handler, main, performOCR, createDraftEvent, bind, emit, modify,
    lift, update_store, when, ret. simpl. rewrite Ho, He, Hi. simpl.
  fold (draft_row_of req e text new_id now). fold row.
  unfold sendQuickReplies, invoke_create_calendar_event.
  rewrite (unflagged_draft_is_committed e Hn).
  unfold bind, emit, modify, ret.
  destruct (message_update_ok E); simpl;
    match goal with
    | |- context [Commit.handler legacy E ?r ?w0] =>
        rewrite (handler_after_submission legacy E r w0 row token ev resp);
          [ | apply (appended_draft_is_selected E r _
                       (draft_events (w_store w)) row);
              auto; reflexivity
            | exact Hstart | exact Htok | exact Hev | exact Hcal ]
    end; rewrite Hins; destruct (draft_update_ok E); simpl;
    split; reflexivity.
Qed.

End HappyPath.

Section HappyPathWitnesses.
Import Ingest CommitFacts.
Local Open Scope string_scope.

Definition evening : Extractor.EventData :=
  {| Extractor.title := Some "7:00 pm";
     Extractor.start_dt := Some "2024-09-15T00:00:00.000Z";
     Extractor.end_dt := Some "2024-09-15T02:00:00.000Z";
     Extractor.location := None;
     Extractor.notes := None;
     Extractor.confidence := 1.0%float |}.

Lemma confident_flyer_reaches_the_calendar_witness :
  exists ev,
    Commit.buildGoogleEvent strict_engine
      (draft_row_of flyer evening date_then_time "d2" 2) = Normal ev /\
    dateTime (start ev) = Extractor.start_dt evening /\
    dateTime (end_ ev) = Extractor.end_dt evening /\
    fst (handler strict_engine (answering date_then_time true true) flyer
           (fresh party_store)) =
      Normal (Success "d2" (Extractor.confidence evening)) /\
    events (w_store (snd (handler strict_engine
                            (answering date_then_time true true) flyer
                            (fresh party_store)))) =
      (events (w_store (fresh party_store)) ++
       [{| e_user_id := userId flyer;
           draft_event_id := "d2";
           google_event_id := "g1";
           calendar_id := "primary";
           request_payload := ev;
           response_payload :=
             {| cr_id := "g1"; htmlLink := "https://calendar/g1" |} |}])%list.
Proof.
  apply (confident_flyer_reaches_the_calendar strict_engine
           (answering date_then_time true true) flyer (fresh party_store)
           date_then_time "d2" 2%Z evening "token"
           {| cr_id := "g1"; htmlLink := "https://calendar/g1" |});
    try reflexivity.
  intros d [<- | []] _ _. reflexivity.
Defined.

End HappyPathWitnesses.
